(** * Network topology diagram: tree construction, renderers and statistics

    A shallow embedding of the network diagram component
    ([toTree], [NetworkNode], [NetworkEdge], [toCounts], [stats]) together
    with the properties its specification states about it. *)

From stdpp Require Import gmap strings list.
From Stdlib Require Import Permutation.

Local Open Scope string_scope.

(** ** Data model *)

(** [NetworkItem["type"]]: the keys of the [nodeTypes] table. *)
Inductive NodeType :=
  | switch | converter | accessPoint | camera | microphone
  | speaker | interface | server | controlunit.

(** [NestedNetworkItem["connection"]["type"]]: the keys of [edgeTypes]. *)
Inductive ConnectionType := ethernet | fiber | wifi | cloud | coax.

#[global] Instance NodeType_eq_dec : EqDecision NodeType.
Proof. solve_decision. Defined.

#[global] Instance ConnectionType_eq_dec : EqDecision ConnectionType.
Proof. solve_decision. Defined.

(** The [connection] object of a nested item; only its [type] is read. *)
Record NetworkConnection := { connection_type : ConnectionType }.

#[local] Unset Elimination Schemes.

(** A device.  Optional properties are options: [url] may be absent,
    [connection] is present on nested items only, and [links] is the list
    of children of the devices that can have some. *)
Inductive NetworkItem := mkItem {
  name : string;
  type : NodeType;
  model : string;
  url : option string;
  connection : option NetworkConnection;
  links : option (list NetworkItem)
}.

(** JavaScript truthiness of an optional string: [undefined] and the empty
    string are falsy. *)
Definition truthy_str (o : option string) : bool :=
  match o with
  | Some s => negb (String.eqb s "")
  | None => false
  end.

(** An item has a url when [item.url] passes as a condition, the test
    the source uses wherever it asks whether a device has a URL. *)
Definition item_has_url (it : NetworkItem) : bool := truthy_str (url it).

(** [`${item.type}`]: the enumeration is a union of string literals. *)
Definition type_str (t : NodeType) : string :=
  match t with
  | switch => "switch" | converter => "converter"
  | accessPoint => "accessPoint" | camera => "camera"
  | microphone => "microphone" | speaker => "speaker"
  | interface => "interface" | server => "server"
  | controlunit => "controlunit"
  end.

(** ** TreeBuilder *)

Record Data := { label : string; item : NetworkItem }.

(** [TreeNode<Data>] *)
Inductive TreeNode := mkTreeNode {
  tree_id : string;
  tree_type : string;
  tree_data : Data;
  tree_children : list TreeNode
}.

Section TreeBuilder.

(** [convertToSlug] comes from the slug utilities, which are not part of
    this component; the tree is built for any slug function. *)
Variable convertToSlug : string → string.

(** The body of the arrow function given to [items.map] in [toTree]. *)
Fixpoint toTreeNode (it : NetworkItem) : TreeNode :=
  {| tree_id := convertToSlug (name it ++ "-" ++ type_str (type it));
     tree_type := "network";
     tree_data := {| label := name it ++ " (" ++ type_str (type it) ++ ")";
                     item := it |};
     tree_children :=
       match links it with
       | Some l => List.map toTreeNode l
       | None => []
       end |}.

Definition toTree (items : list NetworkItem) : list TreeNode :=
  List.map toTreeNode items.

End TreeBuilder.

(** Devices of a tree, every root followed by its descendants. *)
Fixpoint item_devices (it : NetworkItem) : list NetworkItem :=
  it :: match links it with
        | Some l => flat_map item_devices l
        | None => []
        end.

Definition devices (items : list NetworkItem) : list NetworkItem :=
  flat_map item_devices items.

(** Nodes of a built tree, every node followed by its descendants through
    the [children] field. *)
Fixpoint node_nodes (n : TreeNode) : list TreeNode :=
  n :: flat_map node_nodes (tree_children n).

Definition tree_nodes (ns : list TreeNode) : list TreeNode :=
  flat_map node_nodes ns.

#[local] Set Elimination Schemes.

(** ** The static node-type table *)

Record Eyebrow := { eyebrow_name : string; eyebrow_color : string }.

Record NodeStyle := {
  container : string;
  stats_flag : bool;
  eyebrow : Eyebrow
}.

Definition nodeTypes (t : NodeType) : NodeStyle :=
  match t with
  | switch =>
      {| container := "border-blue-700"; stats_flag := true;
         eyebrow := {| eyebrow_name := "Network Switch";
                       eyebrow_color := "text-blue-700" |} |}
  | converter =>
      {| container := "border-blue-700 border-dashed"; stats_flag := false;
         eyebrow := {| eyebrow_name := "Media Converter";
                       eyebrow_color := "text-blue-700" |} |}
  | accessPoint =>
      {| container := "border-blue-400"; stats_flag := true;
         eyebrow := {| eyebrow_name := "WiFi Access Point";
                       eyebrow_color := "text-blue-400" |} |}
  | camera =>
      {| container := "border-green-700"; stats_flag := true;
         eyebrow := {| eyebrow_name := "Camera";
                       eyebrow_color := "text-green-700" |} |}
  | microphone =>
      {| container := "border-green-400"; stats_flag := true;
         eyebrow := {| eyebrow_name := "Microphone";
                       eyebrow_color := "text-green-400" |} |}
  | speaker =>
      {| container := "border-green-400"; stats_flag := false;
         eyebrow := {| eyebrow_name := "Speaker";
                       eyebrow_color := "text-green-400" |} |}
  | interface =>
      {| container := "border-green-400"; stats_flag := false;
         eyebrow := {| eyebrow_name := "Audio I/O Interface";
                       eyebrow_color := "text-green-400" |} |}
  | server =>
      {| container := "border-yellow-700"; stats_flag := false;
         eyebrow := {| eyebrow_name := "Server";
                       eyebrow_color := "text-yellow-700" |} |}
  | controlunit =>
      {| container := "border-red-700"; stats_flag := false;
         eyebrow := {| eyebrow_name := "Camera Control Unit";
                       eyebrow_color := "text-red-700" |} |}
  end.

(** [typeSafeObjectKeys(nodeTypes)]: the keys in declaration order. *)
Definition nodeTypes_keys : list NodeType :=
  [switch; converter; accessPoint; camera; microphone;
   speaker; interface; server; controlunit].

(** ** StatsAggregator *)

(** A JavaScript number as far as [toCounts] can produce one: a count, or
    [NaN] (what [undefined + 1] would give). *)
Inductive number := Num (n : nat) | NaN.

Definition num_add (a b : number) : number :=
  match a, b with
  | Num x, Num y => Num (x + y)
  | _, _ => NaN
  end.

Definition truthy_num (a : number) : bool :=
  match a with
  | Num 0 => false
  | Num (S _) => true
  | NaN => false
  end.

(** The [stats] object: string-keyed properties in insertion order. *)
Definition Counts := list (NodeType * number).

(** [o[k]]; [None] is [undefined]. *)
Fixpoint obj_get (o : Counts) (k : NodeType) : option number :=
  match o with
  | [] => None
  | (k', v) :: rest => if decide (k' = k) then Some v else obj_get rest k
  end.

(** [o[k] = v]: an existing property keeps its place, a new one goes last. *)
Fixpoint obj_set (o : Counts) (k : NodeType) (v : number) : Counts :=
  match o with
  | [] => [(k, v)]
  | (k', v') :: rest =>
      if decide (k' = k) then (k', v) :: rest
      else (k', v') :: obj_set rest k v
  end.

(** Reading a property as a number: [undefined] converts to [NaN]. *)
Definition to_number (o : option number) : number :=
  match o with
  | Some v => v
  | None => NaN
  end.

(** [x || 0] *)
Definition or_zero (o : option number) : number :=
  match o with
  | Some v => if truthy_num v then v else Num 0
  | None => Num 0
  end.

(** The initial accumulator of [toCounts]: every key of [nodeTypes] set
    to [0], built by the [reduce] with an object spread. *)
Definition zero_counts : Counts :=
  fold_left (fun acc key => obj_set acc key (Num 0)) nodeTypes_keys [].

(** The inner loop of [toCounts]:
    [for (const [key, value] of entries(nestedStats))
       stats[key] = (stats[key] || 0) + value]. *)
Definition merge_counts (stats nested : Counts) : Counts :=
  fold_left
    (fun st kv => obj_set st (fst kv) (num_add (or_zero (obj_get st (fst kv))) (snd kv)))
    nested stats.

(** One iteration of the outer loop of [toCounts], threading [stats]. *)
Fixpoint toCounts_item (stats : Counts) (it : NetworkItem) : Counts :=
  let stats := obj_set stats (type it)
                 (num_add (to_number (obj_get stats (type it))) (Num 1)) in
  match links it with
  | Some l => merge_counts stats (fold_left toCounts_item l zero_counts)
  | None => stats
  end.

Definition toCounts (items : list NetworkItem) : Counts :=
  fold_left toCounts_item items zero_counts.

(** [entries(toCounts(network)).filter(([key, value]) =>
      nodeTypes[key].stats && value)] for a given device tree. *)
Definition stats (network : list NetworkItem) : Counts :=
  List.filter (fun kv => stats_flag (nodeTypes (fst kv)) && truthy_num (snd kv))
    (toCounts network).

(** Number of devices of type [t] anywhere in the tree. *)
Definition count_type (t : NodeType) (items : list NetworkItem) : nat :=
  count_occ NodeType_eq_dec (List.map type (devices items)) t.

(** A leaf device and a device with children, for examples. *)
Definition leaf (n : string) (t : NodeType) : NetworkItem :=
  mkItem n t "" None (Some {| connection_type := ethernet |}) None.

Definition example_network : list NetworkItem :=
  [ mkItem "core" switch "" None None
      (Some [leaf "pasture" camera; leaf "barn" camera]) ].


(** ** NodeRenderer *)

(** An edge of the rendering surface, as [useEdges] returns it. *)
Record Edge := { edge_id : string; edge_source : string; edge_target : string }.

Inductive Position := Top | Bottom | Left | Right.

Inductive HandleType := target_handle | source_handle.

(** A rendered [<Handle>]. *)
Record Handle := {
  handle_type : HandleType;
  handle_position : Position;
  handle_isConnectable : bool
}.

(** The loop over [edges] in [NetworkNode]: the first edge whose target is
    [id] and the first edge whose source is [id], leaving the loop as soon
    as both are known. *)
Fixpoint scan_edges (id : string) (edges : list Edge)
    (targetEdge sourceEdge : option Edge) : option Edge * option Edge :=
  match edges with
  | [] => (targetEdge, sourceEdge)
  | edge :: rest =>
      let targetEdge :=
        if negb (bool_decide (is_Some targetEdge)) && String.eqb (edge_target edge) id
        then Some edge else targetEdge in
      let sourceEdge :=
        if negb (bool_decide (is_Some sourceEdge)) && String.eqb (edge_source edge) id
        then Some edge else sourceEdge in
      if bool_decide (is_Some targetEdge) && bool_decide (is_Some sourceEdge)
      then (targetEdge, sourceEdge)
      else scan_edges id rest targetEdge sourceEdge
  end.

Inductive Tag := a_tag | div_tag.

(** What [NetworkNode] returns: the element and its props, the handles
    among its children, and the texts.  [className] holds the arguments
    given to [classes]. *)
Record NodeView := {
  element : Tag;
  className : list string;
  tabIndex : Z;
  linkProps : list (string * string);
  handles : list Handle;
  eyebrow_text : string;
  eyebrow_class : list string;
  name_text : string;
  model_text : string;
  model_underlined : bool;
  external_icon : bool
}.

Definition NetworkNode (edges : list Edge) (id : string) (data : Data)
    (targetPosition sourcePosition : option Position) (isConnectable : bool)
    : NodeView :=
  let targetPosition := default Top targetPosition in
  let sourcePosition := default Bottom sourcePosition in
  let '(targetEdge, sourceEdge) := scan_edges id edges None None in
  let has_url := truthy_str (url (item data)) in
  {| element := if has_url then a_tag else div_tag;
     className :=
       ["group flex h-20 w-44 cursor-pointer flex-col rounded-xl border-2 bg-white px-2 py-1 hover:min-w-min hover:shadow-md focus:min-w-min focus:shadow-md";
        container (nodeTypes (type (item data)))];
     tabIndex := -1;
     linkProps :=
       if has_url
       then [("href", default "" (url (item data)));
             ("target", "_blank");
             ("rel", "noopener noreferrer")]
       else [];
     handles :=
       (if bool_decide (is_Some targetEdge) || isConnectable
        then [{| handle_type := target_handle;
                 handle_position := targetPosition;
                 handle_isConnectable := isConnectable |}]
        else [])
       ++
       (if bool_decide (is_Some sourceEdge) || isConnectable
        then [{| handle_type := source_handle;
                 handle_position := sourcePosition;
                 handle_isConnectable := isConnectable |}]
        else []);
     eyebrow_text := eyebrow_name (eyebrow (nodeTypes (type (item data))));
     eyebrow_class :=
       ["text-xs"; eyebrow_color (eyebrow (nodeTypes (type (item data))))];
     name_text := name (item data);
     model_text := model (item data);
     model_underlined := has_url;
     external_icon := has_url |}.

(** ** EdgeRenderer *)

Record Stroke := { color : string; dash : option string }.

Record EdgeStyle := { edge_name : string; stroke : Stroke }.

Definition edgeTypes (t : ConnectionType) : EdgeStyle :=
  match t with
  | ethernet =>
      {| edge_name := "Ethernet";
         stroke := {| color := "stroke-blue-700"; dash := None |} |}
  | fiber =>
      {| edge_name := "Fiber";
         stroke := {| color := "stroke-blue-700"; dash := Some "8 8" |} |}
  | wifi =>
      {| edge_name := "WiFi";
         stroke := {| color := "stroke-blue-400"; dash := Some "4 8" |} |}
  | cloud =>
      {| edge_name := "Cloud";
         stroke := {| color := "stroke-yellow-700"; dash := Some "4 8" |} |}
  | coax =>
      {| edge_name := "Coax";
         stroke := {| color := "stroke-red-700"; dash := Some "16 8" |} |}
  end.

(** A node of the rendering surface, as [useNodes<Data>] returns it. *)
Record GraphNode := {
  node_id : string;
  node_data : Data;
  zIndex : option Z
}.

(** Modelled from the spec: the type guard [isNestedNetworkItem] is
    exported by the network data module, whose source is not available;
    the data model describes a nested item as an item that additionally
    carries a [connection]. *)
Definition isNestedNetworkItem (it : NetworkItem) : bool :=
  bool_decide (is_Some (connection it)).

(** The loop over [nodes] in [NetworkEdge]. *)
Fixpoint scan_nodes (source target : string) (nodes : list GraphNode)
    (sourceNode targetNode : option GraphNode)
    : option GraphNode * option GraphNode :=
  match nodes with
  | [] => (sourceNode, targetNode)
  | node :: rest =>
      let sourceNode :=
        if negb (bool_decide (is_Some sourceNode)) && String.eqb (node_id node) source
        then Some node else sourceNode in
      let targetNode :=
        if negb (bool_decide (is_Some targetNode)) && String.eqb (node_id node) target
        then Some node else targetNode in
      if bool_decide (is_Some sourceNode) && bool_decide (is_Some targetNode)
      then (sourceNode, targetNode)
      else scan_nodes source target rest sourceNode targetNode
  end.

(** A component either returns its view or throws an [Error]. *)
Inductive Result (A : Type) :=
  | Returned (view : A)
  | Thrown (message : string).
Arguments Returned {A} view.
Arguments Thrown {A} message.

(** The floating label inside [<EdgeLabelRenderer>]. *)
Record LabelView := { label_text : string; label_zIndex : Z }.

(** What [NetworkEdge] returns.  [group_class] holds the truthy arguments
    given to [classes] for the [<g>] element; the curve itself comes from
    the layout library and is left out. *)
Record EdgeView := {
  group_class : list string;
  style_stroke : string;
  style_strokeWidth : Z;
  style_strokeDasharray : option string;
  edge_label : option LabelView
}.

(** [((nodes[0] && nodes[0].zIndex) || 0) + 1] *)
Definition label_z (nodes : list GraphNode) : Z :=
  (match head nodes with
   | Some n =>
       match zIndex n with
       | Some z => if (z =? 0)%Z then 0 else z
       | None => 0
       end
   | None => 0
   end + 1)%Z.

(** The render function of [NetworkEdge], given the values of the two
    state hooks. *)
Definition NetworkEdge (nodes : list GraphNode) (source target : string)
    (hovered focused : bool) : Result EdgeView :=
  match scan_nodes source target nodes None None with
  | (Some sourceNode, Some targetNode) =>
      if negb (isNestedNetworkItem (item (node_data targetNode)))
      then Thrown "Invalid target"
      else
        match connection (item (node_data targetNode)) with
        | Some targetConnection =>
            let style := edgeTypes (connection_type targetConnection) in
            Returned
              {| group_class :=
                   color (stroke style)
                   :: (if negb hovered && negb focused then ["opacity-75"] else []);
                 style_stroke := "inherit";
                 style_strokeWidth := 2;
                 style_strokeDasharray := dash (stroke style);
                 edge_label :=
                   if hovered || focused
                   then Some {| label_text := edge_name style;
                                label_zIndex := label_z nodes |}
                   else None |}
        | None =>
            (* reading [.type] of [undefined]; the guard above excludes it *)
            Thrown "TypeError"
        end
  | _ => Thrown "Missing source or target"
  end.

(** *** Hover and focus tracking *)

(** The four arrow functions created by the ref callback. *)
Inductive Setter := setHovered (b : bool) | setFocused (b : bool).

(** An event listener of an element: one of the closures of an edge,
    identified by the ref call that created it, or a listener that some
    other code registered. *)
Inductive Listener :=
  | EdgeListener (closure : nat) (call : Setter)
  | OtherListener (n : nat).

#[global] Instance Setter_eq_dec : EqDecision Setter.
Proof. solve_decision. Defined.

#[global] Instance Listener_eq_dec : EqDecision Listener.
Proof. solve_decision. Defined.

(** The part of a DOM element the edge touches. *)
Record Element := {
  attributes : gmap string string;
  listeners : list (string * Listener)
}.

(** The document: elements by reference. *)
Abbreviation DOM := (gmap nat Element).

Definition hasAttribute (k : string) (e : Element) : bool :=
  bool_decide (is_Some (attributes e !! k)).

Definition setAttribute (k v : string) (e : Element) : Element :=
  {| attributes := <[k := v]> (attributes e); listeners := listeners e |}.

Definition removeAttribute (k : string) (e : Element) : Element :=
  {| attributes := delete k (attributes e); listeners := listeners e |}.

(** A listener already registered for the event is not added again. *)
Definition addEventListener (ev : string) (l : Listener) (e : Element) : Element :=
  {| attributes := attributes e;
     listeners := if bool_decide ((ev, l) ∈ listeners e)
                  then listeners e
                  else listeners e ++ [(ev, l)] |}.

Definition removeEventListener (ev : string) (l : Listener) (e : Element) : Element :=
  {| attributes := attributes e;
     listeners := List.filter (fun x => negb (bool_decide (x = (ev, l)))) (listeners e) |}.

(** The [<g>] element handed to the ref callback. *)
Record SVGGElement := { parentElement : option nat }.

(** The environment of the closure stored in [cleanup.current]. *)
Record Cleanup := {
  cleanup_parent : nat;
  cleanup_closure : nat;
  cleanup_setTabIndex : bool
}.

(** The hooks of one [NetworkEdge]: the two states and the cleanup ref. *)
Record EdgeHooks := {
  hovered : bool;
  focused : bool;
  cleanup_current : option Cleanup
}.

Definition initial_hooks : EdgeHooks :=
  {| hovered := false; focused := false; cleanup_current := None |}.

(** The closures [mouseEnter], [mouseLeave], [focus] and [blur] of one
    call of the ref callback, with the events they are registered for. *)
Definition edge_listeners (closure : nat) : list (string * Listener) :=
  [("mouseenter", EdgeListener closure (setHovered true));
   ("mouseleave", EdgeListener closure (setHovered false));
   ("focus", EdgeListener closure (setFocused true));
   ("blur", EdgeListener closure (setFocused false))].

(** The four [parent.addEventListener] calls. *)
Definition attach (closure : nat) (parent : Element) : Element :=
  fold_left (fun e x => addEventListener (fst x) (snd x) e)
    (edge_listeners closure) parent.

(** The four [parent.removeEventListener] calls. *)
Definition detach (closure : nat) (parent : Element) : Element :=
  fold_left (fun e x => removeEventListener (fst x) (snd x) e)
    (edge_listeners closure) parent.

(** Calling the function stored in [cleanup.current]. *)
Definition run_cleanup (c : Cleanup) (dom : DOM) : DOM :=
  alter
    (fun parent =>
       let parent := detach (cleanup_closure c) parent in
       if cleanup_setTabIndex c then removeAttribute "tabindex" parent else parent)
    (cleanup_parent c) dom.

(** The ref callback of the [<g>] element.  [closure] names the closures
    this call creates; [node] is [None] when the element goes away. *)
Definition ref (closure : nat) (node : option SVGGElement)
    (h : EdgeHooks) (dom : DOM) : EdgeHooks * DOM :=
  let '(h, dom) :=
    match cleanup_current h with
    | Some c =>
        ({| hovered := hovered h; focused := focused h; cleanup_current := None |},
         run_cleanup c dom)
    | None => (h, dom)
    end in
  match node with
  | Some node =>
      match parentElement node with
      | Some p =>
          match dom !! p with
          | Some parent =>
              let parent := attach closure parent in
              let '(parent, setTabIndex) :=
                if negb (hasAttribute "tabindex" parent)
                then (setAttribute "tabindex" "-1" parent, true)
                else (parent, false) in
              ({| hovered := hovered h; focused := focused h;
                  cleanup_current :=
                    Some {| cleanup_parent := p;
                            cleanup_closure := closure;
                            cleanup_setTabIndex := setTabIndex |} |},
               <[p := parent]> dom)
          | None => (h, dom)
          end
      | None => (h, dom)
      end
  | None => (h, dom)
  end.

(** Running a state setter. *)
Definition call_setter (s : Setter) (h : EdgeHooks) : EdgeHooks :=
  match s with
  | setHovered b =>
      {| hovered := b; focused := focused h; cleanup_current := cleanup_current h |}
  | setFocused b =>
      {| hovered := hovered h; focused := b; cleanup_current := cleanup_current h |}
  end.

(** A listener runs when it is registered for the event; a listener of
    other code does not touch the hooks of the edge. *)
Definition run_listener (ev : string) (h : EdgeHooks) (x : string * Listener)
    : EdgeHooks :=
  match x with
  | (ev', EdgeListener _ s) => if String.eqb ev' ev then call_setter s h else h
  | (_, OtherListener _) => h
  end.

(** Dispatching event [ev] on element [p]: its listeners run in
    registration order. *)
Definition dispatch (ev : string) (p : nat) (dom : DOM) (h : EdgeHooks) : EdgeHooks :=
  match dom !! p with
  | Some parent => fold_left (run_listener ev) (listeners parent) h
  | None => h
  end.

(** The two states of the edge. *)
Inductive EdgeMode := idle | active.

Definition mode (h : EdgeHooks) : EdgeMode :=
  if hovered h || focused h then active else idle.

(** The render of a mounted edge from its hooks. *)
Definition render_edge (nodes : list GraphNode) (source target : string)
    (h : EdgeHooks) : Result EdgeView :=
  NetworkEdge nodes source target (hovered h) (focused h).

(** *** Sequences of ref calls and events *)

(** What happens to a mounted edge: React calls the ref callback, or the
    browser dispatches an event on some element. *)
Inductive EdgeStep :=
  | ref_call (closure : nat) (node : option SVGGElement)
  | dom_event (ev : string) (p : nat).

Definition edge_step (s : EdgeHooks * DOM) (e : EdgeStep) : EdgeHooks * DOM :=
  match e with
  | ref_call closure node => ref closure node s.1 s.2
  | dom_event ev p => (dispatch ev p s.2 s.1, s.2)
  end.

Definition edge_run (steps : list EdgeStep) (s : EdgeHooks * DOM)
    : EdgeHooks * DOM :=
  fold_left edge_step steps s.

(** ** Accessible list *)

#[local] Unset Elimination Schemes.

(** One [<li>] of [NetworkList]: its key, the two text lines, the link
    around the model if any, the connection line if any, and the nested
    list if any.  Class names are left out. *)
Inductive ListItem := mkListItem {
  li_key : string;
  li_eyebrow : string;
  li_name : string;
  li_model : string;
  li_href : option string;
  li_connection : option string;
  li_links : option (list ListItem)
}.

#[local] Set Elimination Schemes.

Section NetworkList.

Variable convertToSlug : string → string.

(** The body of the arrow function given to [items.map] in
    [NetworkList]. *)
Fixpoint NetworkList_item (it : NetworkItem) : ListItem :=
  {| li_key := convertToSlug (name it ++ "-" ++ type_str (type it));
     li_eyebrow := eyebrow_name (eyebrow (nodeTypes (type it)));
     li_name := name it;
     li_model := model it;
     li_href := if truthy_str (url it) then url it else None;
     li_connection :=
       if isNestedNetworkItem it
       then (fun c => edge_name (edgeTypes (connection_type c))) <$> connection it
       else None;
     li_links :=
       match links it with
       | Some l => Some (List.map NetworkList_item l)
       | None => None
       end |}.

Definition NetworkList (items : list NetworkItem) : list ListItem :=
  List.map NetworkList_item items.

End NetworkList.

(** The list items of a rendered list, every item followed by the items
    of its nested list. *)
Fixpoint li_items (li : ListItem) : list ListItem :=
  li :: match li_links li with
        | Some l => flat_map li_items l
        | None => []
        end.

Definition list_items (lis : list ListItem) : list ListItem :=
  flat_map li_items lis.

(** ** Statistics strip *)

(** One [<li>] of [NetworkStats]: its key, the two texts and whether the
    separator [", "] follows. *)
Record StatView := {
  stat_key : NodeType;
  stat_value : string;
  stat_name : string;
  stat_comma : bool
}.

Section NetworkStats.

(** [Number.prototype.toLocaleString] and the [pluralize] package are
    outside this component. *)
Variable toLocaleString : number → string.
Variable pluralize : string → number → string.

(** [NetworkStats], for the [stats] of a given device tree. *)
Definition NetworkStats (network : list NetworkItem) : list StatView :=
  imap
    (fun idx kv =>
       {| stat_key := fst kv;
          stat_value := toLocaleString (snd kv);
          stat_name :=
            pluralize (eyebrow_name (eyebrow (nodeTypes (fst kv)))) (snd kv);
          stat_comma :=
            (Z.of_nat idx <? Z.of_nat (length (stats network)) - 1)%Z |})
    (stats network).

End NetworkStats.

(** ** Date and time field *)

(** The props [LocalDateTimeField] reads for its reset button:
    [showResetButton], the value of
    [Boolean(props.value || props.defaultValue)], and whether an
    [onChange] handler is given. *)
Record FieldProps := {
  props_showResetButton : option bool;
  props_has_value : bool;
  props_has_onChange : bool
}.

(** The field at run time: whether the input element is behind [ref]
    ([ref.current] is not [null]), the [showResetButton] state, the values
    [props.onChange] was called with, and the values the component itself
    assigned to [ref.current.value].  What the input holds is not part of
    this state: an input that is given a [value] prop gets that value
    written back by React when it renders again. *)
Record FieldState := {
  input_mounted : bool;
  showResetButton : option bool;
  onChange_calls : list string;
  value_writes : list string
}.

(** Truthiness of [undefined], [false] and [true]. *)
Definition truthy_flag (o : option bool) : bool := default false o.

(** [Boolean(s)] for a string. *)
Definition Boolean_str (s : string) : bool := negb (String.eqb s "").

(** The initializer of the [showResetButton] state:
    [props.showResetButton && Boolean(props.value || props.defaultValue)]. *)
Definition initial_field (props : FieldProps) (mounted : bool) : FieldState :=
  {| input_mounted := mounted;
     showResetButton :=
       if truthy_flag (props_showResetButton props)
       then Some (props_has_value props)
       else props_showResetButton props;
     onChange_calls := [];
     value_writes := [] |}.

Inductive FieldEvent :=
  | change (value : string)
  | click_reset.

(** [onChange] for a change event whose [currentTarget.value] is [v]. *)
Definition onChange (props : FieldProps) (v : string) (st : FieldState) : FieldState :=
  let st :=
    if truthy_flag (props_showResetButton props)
    then {| input_mounted := input_mounted st;
            showResetButton := Some (Boolean_str v);
            onChange_calls := onChange_calls st;
            value_writes := value_writes st |}
    else st in
  if props_has_onChange props
  then {| input_mounted := input_mounted st;
          showResetButton := showResetButton st;
          onChange_calls := (onChange_calls st ++ [v])%list;
          value_writes := value_writes st |}
  else st.

(** [reset]: with the input behind [ref], assign the empty string to its
    value and set the state to [false]. *)
Definition reset (st : FieldState) : FieldState :=
  if input_mounted st
  then {| input_mounted := true;
          showResetButton := Some false;
          onChange_calls := onChange_calls st;
          value_writes := (value_writes st ++ [""])%list |}
  else st.

(** An edit of the input fires [onChange] with the edited value; a click
    on the reset button calls [reset]. *)
Definition field_step (props : FieldProps) (st : FieldState) (e : FieldEvent)
    : FieldState :=
  match e with
  | change v => onChange props v st
  | click_reset => reset st
  end.

Definition field_run (props : FieldProps) (es : list FieldEvent) (st : FieldState)
    : FieldState :=
  fold_left (field_step props) es st.

(** [{showResetButton && <button ...>}] *)
Definition reset_button_shown (st : FieldState) : bool :=
  truthy_flag (showResetButton st).

(** ** Auxiliary definitions for the statements *)

(** The counts object holding [f k] under every key, in declaration
    order. *)
Definition counts_of (f : NodeType → nat) : Counts :=
  List.map (fun k => (k, Num (f k))) nodeTypes_keys.

(** The first of two optional results. *)
Definition first_of {A} (a b : option A) : option A :=
  match a with Some _ => a | None => b end.

(** Sample data: a camera whose [url] is the empty string, a root switch,
    a camera connected by fiber, and two parent elements of an edge. *)
Definition camera_with_empty_url : Data :=
  {| label := "barn (camera)";
     item := mkItem "barn" camera "Q6135" (Some "")
               (Some {| connection_type := ethernet |}) None |}.

Definition root_switch : GraphNode :=
  {| node_id := "core-switch";
     node_data := {| label := "core (switch)";
                     item := mkItem "core" switch "" None None None |};
     zIndex := None |}.

Definition fiber_camera : GraphNode :=
  {| node_id := "barn-camera";
     node_data := {| label := "barn (camera)";
                     item := mkItem "barn" camera "" None
                               (Some {| connection_type := fiber |}) None |};
     zIndex := None |}.

Definition plain_group : Element :=
  {| attributes := ∅; listeners := [("click", OtherListener 0)] |}.

Definition focusable_group : Element :=
  {| attributes := {["tabindex" := "0"]}; listeners := [] |}.

(** The parent element [el] while an edge whose closures were created by
    call [closure] is mounted under it. *)
Definition with_edge (closure : nat) (el : Element) : Element :=
  {| attributes :=
       if hasAttribute "tabindex" el then attributes el
       else <["tabindex" := "-1"]> (attributes el);
     listeners := (listeners el ++ edge_listeners closure)%list |}.

(** A document in which no element carries a listener of the edge. *)
Definition no_edge_listeners (dom : DOM) : Prop :=
  ∀ p el ev c s, dom !! p = Some el → (ev, EdgeListener c s) ∉ listeners el.

(** The hooks and the document of an edge relative to the document [dom0]
    it started from: nothing is stored and the document is [dom0], or a
    cleanup is stored for a parent [p] and the document is [dom0] except
    that [p] carries the edge. *)
Definition lifecycle_inv (dom0 : DOM) (s : EdgeHooks * DOM) : Prop :=
  (cleanup_current s.1 = None ∧ s.2 = dom0)
  ∨ ∃ closure p el,
      dom0 !! p = Some el
      ∧ cleanup_current s.1
        = Some {| cleanup_parent := p; cleanup_closure := closure;
                  cleanup_setTabIndex := negb (hasAttribute "tabindex" el) |}
      ∧ s.2 = <[p := with_edge closure el]> dom0.

(** A document with the two sample parents. *)
Definition sample_dom : DOM := {[ 7 := plain_group; 8 := focusable_group ]}.

(** An edge is mounted under the first parent, hovered, then mounted
    again under the second parent. *)
Definition sample_steps : list EdgeStep :=
  [ref_call 1 (Some {| parentElement := Some 7 |});
   dom_event "mouseenter" 7;
   ref_call 2 (Some {| parentElement := Some 8 |})].

(** Whether a string has a hyphen. *)
Fixpoint has_dash (s : string) : bool :=
  match s with
  | EmptyString => false
  | String c rest => Ascii.eqb c (Ascii.ascii_of_nat 45) || has_dash rest
  end.

(** The values of the edits among a sequence of events, in order. *)
Definition edits (es : list FieldEvent) : list string :=
  flat_map (fun e => match e with change v => [v] | click_reset => [] end) es.

(** Where the edge is mounted after a step, as the closure of the call
    and the parent: a ref call with an element whose parent is in the
    document mounts the edge there, any other ref call leaves it
    unmounted, and an event changes nothing. *)
Definition mount_after (dom0 : DOM) (cur : option (nat * nat)) (e : EdgeStep)
    : option (nat * nat) :=
  match e with
  | ref_call closure (Some {| parentElement := Some p |}) =>
      if bool_decide (is_Some (dom0 !! p)) then Some (closure, p) else None
  | ref_call _ _ => None
  | dom_event _ _ => cur
  end.

(** Where the edge is mounted after a sequence of steps: what its latest
    ref call decided. *)
Definition current_mount (dom0 : DOM) (steps : list EdgeStep)
    : option (nat * nat) :=
  fold_left (mount_after dom0) steps None.

(** The document [dom0] with the edge mounted as [m] says. *)
Definition document_with (dom0 : DOM) (m : option (nat * nat)) : DOM :=
  match m with
  | Some (closure, p) => alter (with_edge closure) p dom0
  | None => dom0
  end.

(** The cleanup that undoes the mount [m]. *)
Definition cleanup_for (dom0 : DOM) (m : option (nat * nat)) : option Cleanup :=
  match m with
  | Some (closure, p) =>
      (fun el =>
         {| cleanup_parent := p; cleanup_closure := closure;
            cleanup_setTabIndex := negb (hasAttribute "tabindex" el) |})
      <$> dom0 !! p
  | None => None
  end.

(** The hooks and the document agree with the mount [m]. *)
Definition mounted_as (dom0 : DOM) (m : option (nat * nat))
    (s : EdgeHooks * DOM) : Prop :=
  s.2 = document_with dom0 m
  ∧ cleanup_current s.1 = cleanup_for dom0 m
  ∧ (∀ closure p, m = Some (closure, p) → is_Some (dom0 !! p)).

(** A slug function for the examples: every space becomes a hyphen. *)
Fixpoint hyphenate (s : string) : string :=
  match s with
  | EmptyString => EmptyString
  | String c rest =>
      String (if Ascii.eqb c (Ascii.ascii_of_nat 32)
              then Ascii.ascii_of_nat 45 else c)
        (hyphenate rest)
  end.

(** A device tree whose names have spaces. *)
Definition spaced_network : list NetworkItem :=
  [ mkItem "core switch" switch "" None None
      (Some [leaf "north pasture" camera; leaf "barn" camera]) ].

(** * Properties *)

(** Membership in a literal list, case by case. *)
Ltac elem_cases :=
  repeat match goal with
    | H : _ ∈ (_ ++ _)%list |- _ => apply elem_of_app in H as [H | H]
    | H : _ ∈ _ :: _ |- _ =>
        apply elem_of_cons in H as [H | H]; [first [discriminate H | subst] |]
    | H : _ ∈ [] |- _ => by apply elem_of_nil in H
    end.

(** ** Induction over device trees *)

Section NetworkItem_induction.

Variable P : NetworkItem → Prop.
Hypothesis Hleaf : ∀ n t m u c, P (mkItem n t m u c None).
Hypothesis Hnode :
  ∀ n t m u c l, Forall P l → P (mkItem n t m u c (Some l)).

Fixpoint NetworkItem_ind (it : NetworkItem) : P it :=
  match it with
  | mkItem n t m u c None => Hleaf n t m u c
  | mkItem n t m u c (Some l) =>
      Hnode n t m u c l
        ((fix all (l : list NetworkItem) : Forall P l :=
            match l with
            | [] => @List.Forall_nil _ P
            | x :: r => @List.Forall_cons _ P x r (NetworkItem_ind x) (all r)
            end) l)
  end.

End NetworkItem_induction.

(** ** TreeBuilder *)

Section TreeBuilder_facts.

Variable convertToSlug : string → string.

(** The equation of the source: [children] is [toTree(item.links)] when
    the item has links and the empty list otherwise. *)
Lemma toTree_children it :
  tree_children (toTreeNode convertToSlug it) =
    match links it with Some l => toTree convertToSlug l | None => [] end.
Proof. by destruct it as [n t m u c [l|]]. Qed.

Lemma toTree_item it : item (tree_data (toTreeNode convertToSlug it)) = it.
Proof. by destruct it as [n t m u c [l|]]. Qed.

Lemma toTree_top_level items :
  List.map (fun n => item (tree_data n)) (toTree convertToSlug items) = items.
Proof.
  unfold toTree. induction items as [|it items IH]; simpl; [done|].
  by rewrite toTree_item, IH.
Qed.

Lemma node_nodes_toTreeNode it :
  List.map (fun n => item (tree_data n)) (node_nodes (toTreeNode convertToSlug it))
  = item_devices it.
Proof.
  induction it as [n t m u c | n t m u c l IH] using NetworkItem_ind;
    simpl; [done|].
  f_equal. induction IH as [|x r Hx _ IHr]; simpl; [done|].
  by rewrite List.map_app, Hx, IHr.
Qed.

Lemma tree_nodes_toTree items :
  List.map (fun n => item (tree_data n)) (tree_nodes (toTree convertToSlug items))
  = devices items.
Proof.
  unfold tree_nodes, devices, toTree.
  induction items as [|it items IH]; simpl; [done|].
  by rewrite List.map_app, node_nodes_toTreeNode, IH.
Qed.

Lemma node_nodes_levels it :
  Forall
    (fun n => List.map (fun c => item (tree_data c)) (tree_children n)
              = default [] (links (item (tree_data n))))
    (node_nodes (toTreeNode convertToSlug it)).
Proof.
  induction it as [n t m u c | n t m u c l IH] using NetworkItem_ind.
  - simpl. by constructor.
  - change (node_nodes (toTreeNode convertToSlug (mkItem n t m u c (Some l))))
      with (toTreeNode convertToSlug (mkItem n t m u c (Some l))
            :: flat_map node_nodes (toTree convertToSlug l)).
    constructor.
    + rewrite toTree_children, toTree_item. simpl. apply toTree_top_level.
    + unfold toTree. induction IH as [|x r Hx _ IHr]; simpl; [constructor|].
      apply Forall_app. by split.
Qed.

Lemma tree_nodes_levels items :
  Forall
    (fun n => List.map (fun c => item (tree_data c)) (tree_children n)
              = default [] (links (item (tree_data n))))
    (tree_nodes (toTree convertToSlug items)).
Proof.
  unfold tree_nodes, toTree.
  induction items as [|it items IH]; simpl; [constructor|].
  apply Forall_app. split; [apply node_nodes_levels | done].
Qed.

(** C2.  The nodes built by [toTree], counted with all their descendants
    through [children], are as many as the devices of the input tree
    (roots and nested descendants), and the input order is kept at every
    level: the items of the root nodes are the input list, the items of
    each node's children are that item's links, and the whole walk of the
    output visits the devices in the order of the walk of the input. *)
Theorem toTree_node_count (items : list NetworkItem) :
  length (tree_nodes (toTree convertToSlug items)) = length (devices items)
  ∧ List.map (fun n => item (tree_data n)) (toTree convertToSlug items) = items
  ∧ Forall
      (fun n => List.map (fun c => item (tree_data c)) (tree_children n)
                = default [] (links (item (tree_data n))))
      (tree_nodes (toTree convertToSlug items))
  ∧ List.map (fun n => item (tree_data n)) (tree_nodes (toTree convertToSlug items))
    = devices items.
Proof.
  split_and!.
  - by rewrite <- (tree_nodes_toTree items), List.length_map.
  - apply toTree_top_level.
  - apply tree_nodes_levels.
  - apply tree_nodes_toTree.
Qed.

End TreeBuilder_facts.

(** ** StatsAggregator *)

Lemma zero_counts_of : zero_counts = counts_of (fun _ => 0).
Proof. reflexivity. Qed.

Lemma counts_of_ext f g : (∀ k, f k = g k) → counts_of f = counts_of g.
Proof. intros H. unfold counts_of. apply List.map_ext. intros k. by rewrite H. Qed.

Lemma obj_get_counts_of f k : obj_get (counts_of f) k = Some (Num (f k)).
Proof. by destruct k. Qed.

Lemma obj_set_counts_of f k v :
  obj_set (counts_of f) k (Num v)
  = counts_of (fun k' => if decide (k' = k) then v else f k').
Proof. by destruct k. Qed.

Lemma or_zero_count n : or_zero (Some (Num n)) = Num n.
Proof. by destruct n. Qed.

Lemma all_keys (k : NodeType) : k ∈ nodeTypes_keys.
Proof. destruct k; unfold nodeTypes_keys; set_solver. Qed.

Lemma nodeTypes_keys_NoDup : NoDup nodeTypes_keys.
Proof. compute_done. Qed.

Lemma merge_step f k v :
  obj_set (counts_of f) k (num_add (or_zero (obj_get (counts_of f) k)) (Num v))
  = counts_of (fun k' => if decide (k' = k) then f k + v else f k').
Proof. by rewrite obj_get_counts_of, or_zero_count, <- obj_set_counts_of. Qed.

Lemma merge_counts_of f g :
  merge_counts (counts_of f) (counts_of g) = counts_of (fun k => f k + g k).
Proof.
  unfold merge_counts. unfold counts_of at 1. unfold nodeTypes_keys.
  cbn [List.map fold_left fst snd].
  rewrite !merge_step.
  apply counts_of_ext. intros k. by destruct k.
Qed.

Lemma count_type_cons t it items :
  count_type t (it :: items) = count_type t [it] + count_type t items.
Proof.
  unfold count_type, devices. simpl. rewrite app_nil_r.
  by rewrite List.map_app, count_occ_app.
Qed.

Lemma count_type_leaf t n t' m u c :
  count_type t [mkItem n t' m u c None] = if decide (t' = t) then 1 else 0.
Proof.
  unfold count_type. simpl.
  destruct (NodeType_eq_dec t' t), (decide (t' = t)); done.
Qed.

Lemma count_type_node t n t' m u c l :
  count_type t [mkItem n t' m u c (Some l)]
  = (if decide (t' = t) then 1 else 0) + count_type t l.
Proof.
  unfold count_type, devices. simpl. rewrite app_nil_r.
  destruct (NodeType_eq_dec t' t), (decide (t' = t)); done.
Qed.

Lemma toCounts_fold l :
  Forall
    (fun it => ∀ f, toCounts_item (counts_of f) it
                    = counts_of (fun k => f k + count_type k [it])) l →
  ∀ f, fold_left toCounts_item l (counts_of f)
       = counts_of (fun k => f k + count_type k l).
Proof.
  induction 1 as [|x r Hx _ IHr]; intros f; simpl.
  - apply counts_of_ext. intros k. unfold count_type. simpl. lia.
  - rewrite Hx, IHr. apply counts_of_ext. intros k.
    rewrite (count_type_cons k x r). lia.
Qed.

Lemma toCounts_item_counts it f :
  toCounts_item (counts_of f) it
  = counts_of (fun k => f k + count_type k [it]).
Proof.
  revert f.
  induction it as [n t m u c | n t m u c l IH] using NetworkItem_ind;
    intros f; cbn [toCounts_item links type].
  - rewrite obj_get_counts_of. cbn [to_number num_add].
    rewrite obj_set_counts_of. apply counts_of_ext. intros k.
    rewrite count_type_leaf. repeat case_decide; subst; try done; lia.
  - rewrite obj_get_counts_of. cbn [to_number num_add].
    rewrite obj_set_counts_of, zero_counts_of, (toCounts_fold l IH).
    rewrite merge_counts_of. apply counts_of_ext. intros k.
    rewrite count_type_node. repeat case_decide; subst; try done; lia.
Qed.

(** [toCounts] holds, under every device type, the number of devices of
    that type in the whole tree. *)
Lemma toCounts_counts items :
  toCounts items = counts_of (fun k => count_type k items).
Proof.
  unfold toCounts. rewrite zero_counts_of, toCounts_fold.
  - by apply counts_of_ext.
  - apply Forall_forall. intros it _ f. apply toCounts_item_counts.
Qed.

Lemma elem_of_counts_of f t c :
  (t, c) ∈ counts_of f ↔ c = Num (f t).
Proof.
  unfold counts_of. rewrite list_elem_of_In, in_map_iff. split.
  - intros (k & [= -> <-] & _). done.
  - intros ->. exists t. split; [done|]. apply list_elem_of_In, all_keys.
Qed.

Lemma stats_keys_NoDup items : NoDup (List.map fst (stats items)).
Proof.
  unfold stats. rewrite toCounts_counts.
  generalize (fun k => count_type k items). intros f.
  unfold counts_of.
  pose proof nodeTypes_keys_NoDup as Hk. revert Hk.
  generalize nodeTypes_keys. intros ks.
  induction 1 as [|k ks Hk _ IH]; simpl; [constructor|].
  case_match; simpl; [|done].
  constructor; [|done].
  intros Hin. apply Hk.
  apply list_elem_of_In, in_map_iff in Hin as ([k' v] & Hfst & Hin).
  simpl in Hfst. subst k'.
  apply filter_In in Hin as [Hin _].
  apply in_map_iff in Hin as (k'' & [= -> _] & Hin).
  by apply list_elem_of_In.
Qed.

Example stats_example :
  stats example_network = [(switch, Num 1); (camera, Num 2)].
Proof. reflexivity. Qed.

(** C1.  [stats] (the filter over [toCounts]) lists a device type with a
    count exactly when the type's entry of [nodeTypes] has the stats flag,
    the count is the number of devices of that type anywhere in the tree,
    at any depth, and that number is not zero; no type is listed twice;
    and one switch with two nested cameras gives switch: 1, camera: 2. *)
Theorem stats_counts (items : list NetworkItem) :
  (∀ t c, (t, c) ∈ stats items ↔
          stats_flag (nodeTypes t) = true
          ∧ c = Num (count_type t items)
          ∧ count_type t items ≠ 0)
  ∧ NoDup (List.map fst (stats items))
  ∧ stats [mkItem "core" switch "" None None
             (Some [leaf "pasture" camera; leaf "barn" camera])]
    = [(switch, Num 1); (camera, Num 2)].
Proof.
  split_and!; [|apply stats_keys_NoDup|reflexivity].
  intros t c. unfold stats.
  rewrite list_elem_of_In, filter_In, <- list_elem_of_In, toCounts_counts.
  rewrite elem_of_counts_of. simpl. rewrite andb_true_iff. split.
  - intros (-> & Hflag & Hc). split_and!; [done..|].
    intros E. rewrite E in Hc. done.
  - intros (Hflag & -> & Hc). split_and!; [done..|].
    simpl. by destruct (count_type t items).
Qed.

(** C9.  The counts depend only on the multiset of device types in the
    tree: two trees whose devices have the same types with the same
    multiplicities, whatever their shapes and nesting depths, get the same
    [toCounts] object and the same [stats]. *)
Theorem toCounts_shape_invariant (a b : list NetworkItem) :
  Permutation (List.map type (devices a)) (List.map type (devices b)) →
  toCounts a = toCounts b ∧ stats a = stats b.
Proof.
  intros Hperm.
  assert (toCounts a = toCounts b) as E.
  { rewrite !toCounts_counts. apply counts_of_ext. intros k.
    unfold count_type. by apply Permutation_count_occ. }
  split; [done|]. unfold stats. by rewrite E.
Qed.

(** A camera that hangs two levels below a switch, and the same devices
    all at root level. *)
Lemma toCounts_shape_invariant_witness :
  Permutation
    (List.map type (devices
       [mkItem "core" switch "" None None
          (Some [mkItem "edge" switch "" None None
                   (Some [leaf "barn" camera])])]))
    (List.map type (devices
       [leaf "barn" camera; leaf "core" switch; leaf "edge" switch]))
  ∧ toCounts
      [mkItem "core" switch "" None None
         (Some [mkItem "edge" switch "" None None
                  (Some [leaf "barn" camera])])]
    = toCounts [leaf "barn" camera; leaf "core" switch; leaf "edge" switch].
Proof.
  assert (Permutation
    (List.map type (devices
       [mkItem "core" switch "" None None
          (Some [mkItem "edge" switch "" None None
                   (Some [leaf "barn" camera])])]))
    (List.map type (devices
       [leaf "barn" camera; leaf "core" switch; leaf "edge" switch]))) as H.
  { simpl. apply Permutation_sym, (Permutation_cons_app [switch; switch] []). simpl. reflexivity. }
  split; [exact H|]. exact (proj1 (toCounts_shape_invariant _ _ H)).
Defined.

(** ** Scans of the edge and node sets *)

Lemma scan_edges_find id edges a b :
  scan_edges id edges a b
  = (first_of a (List.find (fun e => String.eqb (edge_target e) id) edges),
     first_of b (List.find (fun e => String.eqb (edge_source e) id) edges)).
Proof.
  revert a b. induction edges as [|e edges IH]; intros a b.
  - by destruct a, b.
  - cbn [scan_edges List.find].
    destruct a, b, (String.eqb (edge_target e) id), (String.eqb (edge_source e) id);
      cbn; try rewrite IH; done.
Qed.

Lemma scan_nodes_find source target nodes a b :
  scan_nodes source target nodes a b
  = (first_of a (List.find (fun n => String.eqb (node_id n) source) nodes),
     first_of b (List.find (fun n => String.eqb (node_id n) target) nodes)).
Proof.
  revert a b. induction nodes as [|n nodes IH]; intros a b.
  - by destruct a, b.
  - cbn [scan_nodes List.find].
    destruct a, b, (String.eqb (node_id n) source), (String.eqb (node_id n) target);
      cbn; try rewrite IH; done.
Qed.

Lemma find_is_Some {A} (f : A → bool) (l : list A) :
  is_Some (List.find f l) ↔ ∃ x, x ∈ l ∧ f x = true.
Proof.
  split.
  - intros [x Hx]. apply find_some in Hx as [Hin Hf].
    exists x. by rewrite list_elem_of_In.
  - intros (x & Hin & Hf). destruct (List.find f l) eqn:E; [done|].
    apply list_elem_of_In in Hin. by rewrite (find_none f l E x Hin) in Hf.
Qed.

(** ** NodeRenderer *)

Lemma truthy_str_spec (o : option string) :
  truthy_str o = true ↔ ∃ u, o = Some u ∧ u ≠ "".
Proof.
  destruct o as [u|]; simpl.
  - rewrite negb_true_iff, String.eqb_neq. split.
    + intros Hne. by exists u.
    + by intros (u' & [= <-] & Hne).
  - split; [done|]. by intros (u & [=] & _).
Qed.

(** A url that is the empty string counts as no url: the node is a
    [div]. *)
Example NetworkNode_empty_url :
  item_has_url (item camera_with_empty_url) = false
  ∧ element (NetworkNode [] "barn-camera" camera_with_empty_url None None false)
    = div_tag.
Proof. done. Qed.

(** C6.  The node is a hyperlink exactly when its item has a url, in the
    sense of the source's test [data.item.url ? ... : ...] ("if this node
    has a URL"): a url that is present and not the empty string.  The
    hyperlink carries the url as [href] together with [target="_blank"]
    and [rel="noopener noreferrer"]; a node whose item has no url is a
    [div] with no link attributes.  For every url other than the empty
    string, having a url is the same as the property being present. *)
Theorem NetworkNode_link (edges : list Edge) (id : string) (data : Data)
    (targetPosition sourcePosition : option Position) (isConnectable : bool) :
  let view :=
    NetworkNode edges id data targetPosition sourcePosition isConnectable in
  (element view = a_tag ↔ item_has_url (item data) = true)
  ∧ (element view = a_tag →
       ("target", "_blank") ∈ linkProps view
       ∧ ("rel", "noopener noreferrer") ∈ linkProps view
       ∧ ∃ u, url (item data) = Some u
              ∧ linkProps view
                = [("href", u); ("target", "_blank");
                   ("rel", "noopener noreferrer")])
  ∧ (item_has_url (item data) = false →
       element view = div_tag ∧ linkProps view = [])
  ∧ (item_has_url (item data) = true ↔ ∃ u, url (item data) = Some u ∧ u ≠ "")
  ∧ (url (item data) ≠ Some "" →
       (element view = a_tag ↔ is_Some (url (item data)))).
Proof.
  unfold NetworkNode, item_has_url.
  destruct (scan_edges id edges None None) as [te se].
  cbn [element linkProps].
  split; [by destruct (truthy_str _)|].
  split.
  { destruct (truthy_str (url (item data))) eqn:Hu; [|done]. intros _.
    apply truthy_str_spec in Hu as (u & Hu & Hne). rewrite Hu. cbn.
    split; [apply list_elem_of_further, list_elem_of_here|].
    split; [do 2 apply list_elem_of_further; apply list_elem_of_here|].
    by exists u. }
  split; [by intros ->|].
  split; [apply truthy_str_spec|].
  intros Hne. destruct (url (item data)) as [u|] eqn:Hu; cbn.
  - destruct (String.eqb_spec u "") as [-> | Hu']; [done|]. cbn.
    split; [by eexists | done].
  - split; [done | by intros [? [=]]].
Qed.

(** C7, as stated, fails: a connectable node shows its target handle (and
    its source handle) although no edge mentions it. *)
Lemma NetworkNode_connectable_without_edges :
  ¬ ((∃ h, h ∈ handles (NetworkNode [] "barn-camera" camera_with_empty_url
                          None None true)
           ∧ handle_type h = target_handle)
     ↔ ∃ e : Edge, e ∈ [] ∧ edge_target e = "barn-camera").
Proof.
  simpl. intros [H _]. destruct H as (e & He & _).
  - eexists. split; [apply list_elem_of_here|done].
  - by apply elem_of_nil in He.
Qed.

Lemma find_edge_exists (f : Edge → string) (id : string) (edges : list Edge) :
  is_Some (List.find (fun e => String.eqb (f e) id) edges)
  ↔ ∃ e, e ∈ edges ∧ f e = id.
Proof.
  rewrite find_is_Some. by setoid_rewrite String.eqb_eq.
Qed.

Lemma handles_target_shown (b1 b2 : bool) (h1 h2 : Handle) :
  handle_type h1 = target_handle → handle_type h2 = source_handle →
  (∃ h, h ∈ ((if b1 then [h1] else []) ++ (if b2 then [h2] else []))%list
        ∧ handle_type h = target_handle)
  ↔ b1 = true.
Proof.
  intros H1 H2. split.
  - intros (h & Hin & Ht). destruct b1, b2; elem_cases; congruence.
  - intros ->. exists h1. split; [|done]. apply elem_of_app. left.
    apply list_elem_of_here.
Qed.

Lemma handles_source_shown (b1 b2 : bool) (h1 h2 : Handle) :
  handle_type h1 = target_handle → handle_type h2 = source_handle →
  (∃ h, h ∈ ((if b1 then [h1] else []) ++ (if b2 then [h2] else []))%list
        ∧ handle_type h = source_handle)
  ↔ b2 = true.
Proof.
  intros H1 H2. split.
  - intros (h & Hin & Ht). destruct b1, b2; elem_cases; congruence.
  - intros ->. exists h2. split; [|done]. apply elem_of_app. right.
    apply list_elem_of_here.
Qed.

Lemma found_or_connectable {A} (o : option A) (c : bool) :
  bool_decide (is_Some o) || c = true ↔ is_Some o ∨ c = true.
Proof. by rewrite orb_true_iff, bool_decide_eq_true. Qed.

(** C7, amended.  The target handle is rendered exactly when some edge of
    the set has this node's id as its target or the node is connectable,
    and the source handle exactly when some edge has this node's id as its
    source or the node is connectable; the scan with its early exit finds
    the first edge of each kind, so it finds one exactly when one exists. *)
Theorem NetworkNode_handles (edges : list Edge) (id : string) (data : Data)
    (targetPosition sourcePosition : option Position) (isConnectable : bool) :
  let view :=
    NetworkNode edges id data targetPosition sourcePosition isConnectable in
  ((∃ h, h ∈ handles view ∧ handle_type h = target_handle)
   ↔ (∃ e, e ∈ edges ∧ edge_target e = id) ∨ isConnectable = true)
  ∧ ((∃ h, h ∈ handles view ∧ handle_type h = source_handle)
     ↔ (∃ e, e ∈ edges ∧ edge_source e = id) ∨ isConnectable = true)
  ∧ scan_edges id edges None None
    = (List.find (fun e => String.eqb (edge_target e) id) edges,
       List.find (fun e => String.eqb (edge_source e) id) edges)
  ∧ (is_Some (scan_edges id edges None None).1
     ↔ ∃ e, e ∈ edges ∧ edge_target e = id)
  ∧ (is_Some (scan_edges id edges None None).2
     ↔ ∃ e, e ∈ edges ∧ edge_source e = id).
Proof.
  unfold NetworkNode. rewrite scan_edges_find. cbn [first_of handles fst snd].
  rewrite <- !find_edge_exists.
  split; [|split; [|done]].
  - by rewrite handles_target_shown, found_or_connectable.
  - by rewrite handles_source_shown, found_or_connectable.
Qed.

(** ** EdgeRenderer *)

Lemma find_node_exists (id : string) (nodes : list GraphNode) :
  is_Some (List.find (fun n => String.eqb (node_id n) id) nodes)
  ↔ ∃ n, n ∈ nodes ∧ node_id n = id.
Proof.
  rewrite find_is_Some. by setoid_rewrite String.eqb_eq.
Qed.

Lemma find_node_id (id : string) (nodes : list GraphNode) (n : GraphNode) :
  List.find (fun n => String.eqb (node_id n) id) nodes = Some n →
  n ∈ nodes ∧ node_id n = id.
Proof.
  intros H. apply find_some in H as [Hin Heq].
  split; [by apply list_elem_of_In | by apply String.eqb_eq].
Qed.

Lemma isNestedNetworkItem_connection (it : NetworkItem) :
  isNestedNetworkItem it = false ↔ connection it = None.
Proof.
  unfold isNestedNetworkItem. rewrite bool_decide_eq_false.
  by rewrite eq_None_not_Some.
Qed.

(** The three outcomes of [NetworkEdge], by what the scan finds. *)
Lemma NetworkEdge_cases nodes source target hovered focused :
  NetworkEdge nodes source target hovered focused =
    match List.find (fun n => String.eqb (node_id n) source) nodes,
          List.find (fun n => String.eqb (node_id n) target) nodes with
    | Some _, Some targetNode =>
        match connection (item (node_data targetNode)) with
        | Some c =>
            Returned
              {| group_class :=
                   color (stroke (edgeTypes (connection_type c)))
                   :: (if negb hovered && negb focused then ["opacity-75"] else []);
                 style_stroke := "inherit";
                 style_strokeWidth := 2;
                 style_strokeDasharray :=
                   dash (stroke (edgeTypes (connection_type c)));
                 edge_label :=
                   if hovered || focused
                   then Some {| label_text := edge_name (edgeTypes (connection_type c));
                                label_zIndex := label_z nodes |}
                   else None |}
        | None => Thrown "Invalid target"
        end
    | _, _ => Thrown "Missing source or target"
    end.
Proof.
  unfold NetworkEdge. rewrite scan_nodes_find. cbn [first_of].
  destruct (List.find _ nodes) as [s|]; [|done].
  destruct (List.find _ nodes) as [t|]; [|done].
  unfold isNestedNetworkItem.
  by destruct (connection (item (node_data t))).
Qed.

(** C5.  The scan with its early exit gives the first node whose id is the
    edge's source and the first node whose id is its target; so when both
    ids occur in the node set the two resolved nodes belong to the set and
    carry exactly these ids, and when either id does not occur the render
    throws "Missing source or target" instead of producing a view. *)
Theorem NetworkEdge_endpoints (nodes : list GraphNode) (source target : string)
    (hovered focused : bool) :
  scan_nodes source target nodes None None
  = (List.find (fun n => String.eqb (node_id n) source) nodes,
     List.find (fun n => String.eqb (node_id n) target) nodes)
  ∧ ((¬ ∃ n, n ∈ nodes ∧ node_id n = source)
     ∨ (¬ ∃ n, n ∈ nodes ∧ node_id n = target) →
     NetworkEdge nodes source target hovered focused
     = Thrown "Missing source or target")
  ∧ ((∃ n, n ∈ nodes ∧ node_id n = source) →
     (∃ n, n ∈ nodes ∧ node_id n = target) →
     ∃ sourceNode targetNode,
       scan_nodes source target nodes None None
       = (Some sourceNode, Some targetNode)
       ∧ sourceNode ∈ nodes ∧ node_id sourceNode = source
       ∧ targetNode ∈ nodes ∧ node_id targetNode = target
       ∧ NetworkEdge nodes source target hovered focused
         ≠ Thrown "Missing source or target").
Proof.
  split; [|split].
  - by rewrite scan_nodes_find.
  - rewrite <- !find_node_exists, <- !eq_None_not_Some, NetworkEdge_cases.
    intros [-> | ->]; [done|]. by destruct (List.find _ nodes).
  - rewrite <- !find_node_exists, NetworkEdge_cases, scan_nodes_find.
    intros [s Hs] [t Ht]. exists s, t. rewrite Hs, Ht.
    destruct (find_node_id _ _ _ Hs), (find_node_id _ _ _ Ht).
    split_and!; try done.
    by destruct (connection (item (node_data t))).
Qed.

(** C10.  When both endpoints are found and the target node's item is not
    a nested item, that is, carries no [connection], the render throws
    "Invalid target"; a render that returns a view has a target with a
    connection. *)
Theorem NetworkEdge_invalid_target (nodes : list GraphNode)
    (source target : string) (hovered focused : bool)
    (sourceNode targetNode : GraphNode) :
  List.find (fun n => String.eqb (node_id n) source) nodes = Some sourceNode →
  List.find (fun n => String.eqb (node_id n) target) nodes = Some targetNode →
  (isNestedNetworkItem (item (node_data targetNode)) = false
   ↔ connection (item (node_data targetNode)) = None)
  ∧ (isNestedNetworkItem (item (node_data targetNode)) = false →
     NetworkEdge nodes source target hovered focused = Thrown "Invalid target")
  ∧ (∀ view,
       NetworkEdge nodes source target hovered focused = Returned view →
       isNestedNetworkItem (item (node_data targetNode)) = true
       ∧ is_Some (connection (item (node_data targetNode)))).
Proof.
  intros Hs Ht. rewrite NetworkEdge_cases, Hs, Ht.
  split; [apply isNestedNetworkItem_connection|]. split.
  - rewrite isNestedNetworkItem_connection. by intros ->.
  - intros view. unfold isNestedNetworkItem.
    destruct (connection (item (node_data targetNode))); [|done].
    intros _. split; [|done]. by apply bool_decide_eq_true.
Qed.

(** An edge drawn towards the root switch, which has no connection. *)
Lemma NetworkEdge_invalid_target_witness :
  List.find (fun n => String.eqb (node_id n) "barn-camera")
    [root_switch; fiber_camera] = Some fiber_camera
  ∧ List.find (fun n => String.eqb (node_id n) "core-switch")
      [root_switch; fiber_camera] = Some root_switch
  ∧ NetworkEdge [root_switch; fiber_camera] "barn-camera" "core-switch"
      false false
    = Thrown "Invalid target".
Proof.
  split; [reflexivity|]. split; [reflexivity|].
  apply (NetworkEdge_invalid_target [root_switch; fiber_camera]
           "barn-camera" "core-switch" false false fiber_camera root_switch);
    reflexivity.
Defined.

(** C4.  A rendered edge takes its stroke color, its dash pattern and the
    name on its label from the [edgeTypes] entry of the connection type of
    the node found for the target id; the label is there exactly when the
    edge is hovered or focused; whichever node is given as the source, the
    view is the same; and a fiber target gives the fiber stroke and the
    label "Fiber", shown exactly in the active state. *)
Theorem NetworkEdge_style (nodes : list GraphNode) (source target : string)
    (hovered focused : bool) (view : EdgeView) :
  NetworkEdge nodes source target hovered focused = Returned view →
  ∃ targetNode c,
    List.find (fun n => String.eqb (node_id n) target) nodes = Some targetNode
    ∧ connection (item (node_data targetNode)) = Some c
    ∧ head (group_class view)
      = Some (color (stroke (edgeTypes (connection_type c))))
    ∧ style_strokeDasharray view = dash (stroke (edgeTypes (connection_type c)))
    ∧ label_text <$> edge_label view
      = (if hovered || focused
         then Some (edge_name (edgeTypes (connection_type c))) else None)
    ∧ (∀ source' view',
         NetworkEdge nodes source' target hovered focused = Returned view' →
         view' = view)
    ∧ (connection_type c = fiber →
       head (group_class view) = Some "stroke-blue-700"
       ∧ style_strokeDasharray view = Some "8 8"
       ∧ (label_text <$> edge_label view = Some "Fiber"
          ↔ hovered = true ∨ focused = true)
       ∧ (edge_label view = None ↔ hovered = false ∧ focused = false)).
Proof.
  rewrite NetworkEdge_cases.
  destruct (List.find _ nodes) as [s|]; [|done].
  destruct (List.find _ nodes) as [t|] eqn:Ht; [|done].
  destruct (connection (item (node_data t))) as [c|] eqn:Hc; [|done].
  intros [= <-]. exists t, c. cbn.
  split_and!; try done.
  - by destruct (hovered || focused).
  - intros source' view'. rewrite NetworkEdge_cases, Ht, Hc.
    destruct (List.find (fun n => String.eqb (node_id n) source') nodes);
      [|done]. by intros [= <-].
  - intros ->. cbn. split_and!; try done; destruct hovered, focused; cbn; intuition congruence.
Qed.

Lemma NetworkEdge_style_witness :
  ∃ view,
    NetworkEdge [root_switch; fiber_camera] "core-switch" "barn-camera" true false
    = Returned view
    ∧ head (group_class view) = Some "stroke-blue-700"
    ∧ style_strokeDasharray view = Some "8 8"
    ∧ label_text <$> edge_label view = Some "Fiber".
Proof.
  eexists. split; [reflexivity|].
  destruct (NetworkEdge_style [root_switch; fiber_camera]
              "core-switch" "barn-camera" true false _ eq_refl)
    as (t & c & Ht & Hc & Hcol & Hdash & Hlab & _).
  injection Ht as <-. injection Hc as <-.
  split; [exact Hcol|]. split; [exact Hdash|exact Hlab].
Defined.

(** ** Hover and focus tracking *)

Lemma addEventListener_fresh ev l e :
  (ev, l) ∉ listeners e →
  listeners (addEventListener ev l e) = (listeners e ++ [(ev, l)])%list.
Proof. intros H. unfold addEventListener. cbn. by rewrite bool_decide_eq_false_2. Qed.

Lemma edge_listeners_NoDup closure : NoDup (edge_listeners closure).
Proof.
  unfold edge_listeners.
  repeat (constructor; [intros Hin; elem_cases|]). constructor.
Qed.

Lemma add_listeners_fresh (new : list (string * Listener)) (e : Element) :
  NoDup new → (∀ x, x ∈ new → x ∉ listeners e) →
  listeners (fold_left (fun e x => addEventListener (fst x) (snd x) e) new e)
  = (listeners e ++ new)%list.
Proof.
  revert e. induction new as [|[ev l] new IH]; intros e Hnd Hfresh; simpl.
  - by rewrite app_nil_r.
  - apply NoDup_cons in Hnd as [Hx Hnd].
    assert ((ev, l) ∉ listeners e) as Hl by (apply Hfresh; left).
    rewrite IH; [|done|].
    + rewrite addEventListener_fresh by done. by rewrite <- app_assoc.
    + intros y Hy. rewrite addEventListener_fresh by done.
      intros Hin. apply elem_of_app in Hin as [Hin | Hin].
      * apply (Hfresh y); [by right | done].
      * apply list_elem_of_singleton in Hin. by subst.
Qed.

(** On an element that carries no listener of an edge, the four closures
    are appended in the order of the calls. *)
Lemma attach_listeners closure e :
  (∀ ev c s, (ev, EdgeListener c s) ∉ listeners e) →
  listeners (attach closure e) = (listeners e ++ edge_listeners closure)%list.
Proof.
  intros H. unfold attach. apply add_listeners_fresh.
  - apply edge_listeners_NoDup.
  - intros x Hx. unfold edge_listeners in Hx.
    repeat (apply elem_of_cons in Hx as [-> | Hx]; [apply H|]).
    by apply elem_of_nil in Hx.
Qed.

(** The first call of the ref callback of an edge, on a [<g>] whose parent
    is [p]. *)
Lemma ref_mount closure p parent dom h :
  cleanup_current h = None → dom !! p = Some parent →
  ref closure (Some {| parentElement := Some p |}) h dom
  = ({| hovered := hovered h; focused := focused h;
        cleanup_current :=
          Some {| cleanup_parent := p; cleanup_closure := closure;
                  cleanup_setTabIndex := negb (hasAttribute "tabindex" parent) |} |},
     <[p := {| attributes :=
                 if hasAttribute "tabindex" parent then attributes parent
                 else <["tabindex" := "-1"]> (attributes parent);
               listeners := listeners (attach closure parent) |}]> dom).
Proof.
  intros Hc Hp. unfold ref. rewrite Hc. cbn [parentElement]. rewrite Hp.
  change (hasAttribute "tabindex" (attach closure parent))
    with (hasAttribute "tabindex" parent).
  destruct (hasAttribute "tabindex" parent); cbn; [|done].
  by destruct (attach closure parent).
Qed.

(** The call of the ref callback with [null] when a cleanup is stored. *)
Lemma ref_unmount closure c dom h :
  cleanup_current h = Some c →
  ref closure None h dom
  = ({| hovered := hovered h; focused := focused h; cleanup_current := None |},
     run_cleanup c dom).
Proof. intros Hc. unfold ref. by rewrite Hc. Qed.

Lemma dispatch_other_listeners ev (l : list (string * Listener)) h :
  (∀ ev c s, (ev, EdgeListener c s) ∉ l) →
  fold_left (run_listener ev) l h = h.
Proof.
  induction l as [|[ev' [c s|n]] l IH]; intros H; simpl; [done| |].
  - exfalso. apply (H ev' c s). left.
  - apply IH. intros ev'' c s Hin. apply (H ev'' c s). by right.
Qed.

(** After the mount, an event on the parent runs the edge's four
    closures, and only the one registered for that event has an effect. *)
Lemma dispatch_mounted closure p parent dom ev h :
  dom !! p = Some parent →
  (∀ ev c s, (ev, EdgeListener c s) ∉ listeners parent) →
  dispatch ev p
    (ref closure (Some {| parentElement := Some p |}) initial_hooks dom).2 h
  = fold_left (run_listener ev) (edge_listeners closure) h.
Proof.
  intros Hp Hfresh. rewrite (ref_mount closure p parent) by done.
  unfold dispatch. cbn [snd]. rewrite lookup_insert_eq. cbn [listeners].
  rewrite attach_listeners by done. rewrite fold_left_app.
  by rewrite (dispatch_other_listeners ev (listeners parent)).
Qed.

Lemma render_edge_mode nodes source target h view :
  render_edge nodes source target h = Returned view →
  (is_Some (edge_label view) ↔ mode h = active)
  ∧ ("opacity-75" ∈ group_class view ↔ mode h = idle).
Proof.
  unfold render_edge, mode. rewrite NetworkEdge_cases.
  destruct (List.find _ nodes) as [s|]; [|done].
  destruct (List.find _ nodes) as [t|]; [|done].
  destruct (connection (item (node_data t))) as [[ct]|]; [|done].
  intros [= <-]. cbn. rewrite <- negb_orb.
  destruct (hovered h || focused h); cbn; split.
  - split; [done | by eexists].
  - split; [|done]. intros Hin. destruct ct; cbn in Hin; elem_cases.
  - split; [|done]. by intros [x [=]].
  - split; [done|]. intros _. apply list_elem_of_further, list_elem_of_here.
Qed.

(** C3.  The edge is rendered as active (label shown, full opacity)
    exactly when [hovered] or [focused] is true.  Once the edge is mounted
    under a parent element, [mouseenter] on the parent sets [hovered],
    [mouseleave] clears it, [focus] sets [focused] and [blur] clears it,
    each leaving the other flag alone.  An edge that starts idle is active
    after pointer-enter, idle after pointer-leave and active again after
    focus-in. *)
Theorem edge_state_machine (closure p : nat) (parent : Element) (dom : DOM) :
  dom !! p = Some parent →
  (∀ ev c s, (ev, EdgeListener c s) ∉ listeners parent) →
  let mounted :=
    ref closure (Some {| parentElement := Some p |}) initial_hooks dom in
  let pointer_enter := dispatch "mouseenter" p mounted.2 in
  let pointer_leave := dispatch "mouseleave" p mounted.2 in
  let focus_in := dispatch "focus" p mounted.2 in
  let focus_out := dispatch "blur" p mounted.2 in
  (∀ h, mode h = active ↔ hovered h = true ∨ focused h = true)
  ∧ (∀ nodes source target h view,
       render_edge nodes source target h = Returned view →
       (is_Some (edge_label view) ↔ mode h = active)
       ∧ ("opacity-75" ∈ group_class view ↔ mode h = idle))
  ∧ (∀ h, hovered (pointer_enter h) = true
          ∧ focused (pointer_enter h) = focused h)
  ∧ (∀ h, hovered (pointer_leave h) = false
          ∧ focused (pointer_leave h) = focused h)
  ∧ (∀ h, focused (focus_in h) = true
          ∧ hovered (focus_in h) = hovered h)
  ∧ (∀ h, focused (focus_out h) = false
          ∧ hovered (focus_out h) = hovered h)
  ∧ mode mounted.1 = idle
  ∧ mode (pointer_enter mounted.1) = active
  ∧ mode (pointer_leave (pointer_enter mounted.1)) = idle
  ∧ mode (focus_in (pointer_leave (pointer_enter mounted.1))) = active.
Proof.
  intros Hp Hfresh. cbv zeta.
  split.
  { intros h. unfold mode. destruct (hovered h), (focused h); cbn; intuition congruence. }
  split; [apply render_edge_mode|].
  pose proof (fun ev h => dispatch_mounted closure p parent dom ev h Hp Hfresh)
    as Hd.
  repeat split; intros; rewrite ?Hd, ?(ref_mount closure p parent) by done; done.
Qed.

Lemma plain_group_no_edge_listener ev c s :
  (ev, EdgeListener c s) ∉ listeners plain_group.
Proof. intros Hin. cbn in Hin. elem_cases. Qed.

Lemma edge_state_machine_witness :
  let dom : DOM := {[ 7 := plain_group ]} in
  let mounted := ref 1 (Some {| parentElement := Some 7 |}) initial_hooks dom in
  dom !! 7 = Some plain_group
  ∧ mode (dispatch "mouseenter" 7 mounted.2 mounted.1) = active
  ∧ mode (dispatch "mouseleave" 7 mounted.2
            (dispatch "mouseenter" 7 mounted.2 mounted.1)) = idle
  ∧ mode (dispatch "focus" 7 mounted.2
            (dispatch "mouseleave" 7 mounted.2
               (dispatch "mouseenter" 7 mounted.2 mounted.1))) = active.
Proof.
  cbv zeta.
  assert (({[ 7 := plain_group ]} : DOM) !! 7 = Some plain_group) as Hp
    by reflexivity.
  split; [exact Hp|].
  destruct (edge_state_machine 1 7 plain_group {[ 7 := plain_group ]} Hp
              plain_group_no_edge_listener)
    as (_ & _ & _ & _ & _ & _ & _ & Henter & Hleave & Hfocus).
  split; [exact Henter|]. split; [exact Hleave|exact Hfocus].
Defined.

(** C8.  On mount the parent gets [tabindex="-1"] only if it had no
    [tabindex], and the cleanup remembers whether it did so; after the
    unmount the parent's attributes are what they were before the mount:
    a [tabindex] that was there is kept, one that was granted is gone.  No
    other element is touched. *)
Theorem tabindex_scoped (closure closure' p : nat) (parent : Element)
    (dom : DOM) (h : EdgeHooks) :
  cleanup_current h = None → dom !! p = Some parent →
  let mounted := ref closure (Some {| parentElement := Some p |}) h dom in
  let unmounted := ref closure' None mounted.1 mounted.2 in
  attributes <$> mounted.2 !! p
  = Some (if hasAttribute "tabindex" parent then attributes parent
          else <["tabindex" := "-1"]> (attributes parent))
  ∧ cleanup_setTabIndex <$> cleanup_current mounted.1
    = Some (negb (hasAttribute "tabindex" parent))
  ∧ attributes <$> unmounted.2 !! p = Some (attributes parent)
  ∧ hasAttribute "tabindex" <$> unmounted.2 !! p
    = Some (hasAttribute "tabindex" parent)
  ∧ cleanup_current unmounted.1 = None
  ∧ (∀ q, q ≠ p → unmounted.2 !! q = dom !! q).
Proof.
  intros Hc Hp. cbv zeta.
  rewrite (ref_mount closure p parent) by done. cbn [fst snd].
  erewrite ref_unmount by reflexivity. cbn [fst snd cleanup_current].
  unfold run_cleanup. cbn [cleanup_parent cleanup_closure cleanup_setTabIndex].
  rewrite alter_insert_eq, !lookup_insert_eq. cbn [fmap option_fmap option_map].
  assert (hasAttribute "tabindex" parent = false →
          delete "tabindex" (<["tabindex" := "-1"]> (attributes parent))
          = attributes parent) as Hgranted.
  { intros Hhas. apply delete_insert_id. unfold hasAttribute in Hhas.
    apply bool_decide_eq_false in Hhas. by apply eq_None_not_Some. }
  split_and!; try done.
  - destruct (hasAttribute "tabindex" parent) eqn:Hhas; cbn; [done|].
    by rewrite Hgranted.
  - destruct (hasAttribute "tabindex" parent) eqn:Hhas; cbn.
    + change (Some (hasAttribute "tabindex" parent) = Some true).
      by rewrite Hhas.
    + unfold hasAttribute at 1. cbn. rewrite Hgranted by done.
      change (Some (hasAttribute "tabindex" parent) = Some false).
      by rewrite Hhas.
  - intros q Hq. by rewrite lookup_insert_ne.
Qed.

(** A parent without [tabindex] has none after the cycle, and a parent
    with [tabindex="0"] still has it. *)
Lemma tabindex_scoped_witness :
  let dom : DOM := {[ 7 := plain_group; 8 := focusable_group ]} in
  let mounted := ref 1 (Some {| parentElement := Some 7 |}) initial_hooks dom in
  let unmounted := ref 2 None mounted.1 mounted.2 in
  dom !! 7 = Some plain_group
  ∧ attributes <$> mounted.2 !! 7 = Some {["tabindex" := "-1"]}
  ∧ attributes <$> unmounted.2 !! 7 = Some ∅.
Proof.
  cbv zeta.
  assert (({[ 7 := plain_group; 8 := focusable_group ]} : DOM) !! 7
          = Some plain_group) as Hp by reflexivity.
  split; [exact Hp|].
  destruct (tabindex_scoped 1 2 7 plain_group
              {[ 7 := plain_group; 8 := focusable_group ]} initial_hooks
              eq_refl Hp)
    as (Hmount & _ & Hunmount & _).
  split; [exact Hmount | exact Hunmount].
Defined.

(** The same cycle under a parent that already has [tabindex="0"],
    evaluated directly. *)
Example tabindex_kept_example :
  let dom : DOM := {[ 7 := plain_group; 8 := focusable_group ]} in
  let mounted := ref 1 (Some {| parentElement := Some 8 |}) initial_hooks dom in
  let unmounted := ref 2 None mounted.1 mounted.2 in
  cleanup_setTabIndex <$> cleanup_current mounted.1 = Some false
  ∧ unmounted.2 !! 8 = Some focusable_group
  ∧ unmounted.2 !! 7 = Some plain_group.
Proof. vm_compute. done. Qed.

(** * Further properties *)

(** ** StatsAggregator: the counts object *)

Lemma count_type_app t a b :
  count_type t (a ++ b) = count_type t a + count_type t b.
Proof.
  unfold count_type, devices.
  by rewrite flat_map_app, List.map_app, count_occ_app.
Qed.

Lemma counts_of_keys f : List.map fst (counts_of f) = nodeTypes_keys.
Proof. reflexivity. Qed.

(** X1.  Whatever the tree, [toCounts] returns an object with exactly the
    nine keys of [nodeTypes], in declaration order; reading any key gives
    the number of devices of that type in the whole tree; no value is
    [NaN]. *)
Theorem toCounts_keys_values (items : list NetworkItem) :
  List.map fst (toCounts items) = nodeTypes_keys
  ∧ (∀ k, obj_get (toCounts items) k = Some (Num (count_type k items)))
  ∧ Forall (fun kv => snd kv ≠ NaN) (toCounts items).
Proof.
  rewrite toCounts_counts. split; [apply counts_of_keys|]. split.
  - intros k. apply obj_get_counts_of.
  - unfold counts_of. apply Forall_forall. intros [k v] Hin.
    apply list_elem_of_In, in_map_iff in Hin as (k' & [= _ <-] & _). done.
Qed.

Lemma count_occ_all_types (l : list NodeType) :
  count_occ NodeType_eq_dec l switch + count_occ NodeType_eq_dec l converter
  + count_occ NodeType_eq_dec l accessPoint + count_occ NodeType_eq_dec l camera
  + count_occ NodeType_eq_dec l microphone + count_occ NodeType_eq_dec l speaker
  + count_occ NodeType_eq_dec l interface + count_occ NodeType_eq_dec l server
  + count_occ NodeType_eq_dec l controlunit
  = length l.
Proof.
  induction l as [|t l IH]; [done|].
  destruct t; cbn [count_occ length]; repeat case_match; try done; lia.
Qed.

(** X2.  The counts of [toCounts] add up to the number of devices of the
    tree, which is also the number of nodes [toTree] builds for it. *)
Theorem toCounts_total (convertToSlug : string → string)
    (items : list NetworkItem) :
  fold_left num_add (List.map snd (toCounts items)) (Num 0)
  = Num (length (devices items))
  ∧ fold_left num_add (List.map snd (toCounts items)) (Num 0)
    = Num (length (tree_nodes (toTree convertToSlug items))).
Proof.
  assert (fold_left num_add (List.map snd (toCounts items)) (Num 0)
          = Num (length (devices items))) as E.
  { rewrite toCounts_counts. unfold counts_of, nodeTypes_keys, count_type. cbn.
    f_equal. rewrite <- (List.length_map type (devices items)).
    rewrite <- (count_occ_all_types (List.map type (devices items))). lia. }
  split; [done|]. rewrite E. f_equal.
  by rewrite <- (tree_nodes_toTree convertToSlug items), List.length_map.
Qed.

(** X4.  Merging two counts objects, as the inner loop of [toCounts]
    does, gives the counts of the two trees put side by side. *)
Theorem merge_counts_toCounts (a b : list NetworkItem) :
  merge_counts (toCounts a) (toCounts b) = toCounts (a ++ b).
Proof.
  rewrite !toCounts_counts, merge_counts_of. apply counts_of_ext. intros k.
  by rewrite count_type_app.
Qed.

Lemma stats_of_counts items :
  stats items
  = List.filter (fun kv => stats_flag (nodeTypes (fst kv)) && truthy_num (snd kv))
      (counts_of (fun k => count_type k items)).
Proof. unfold stats. by rewrite toCounts_counts. Qed.

Lemma surfaced_order (f : NodeType → nat) :
  sublist
    (List.map fst
       (List.filter
          (fun kv => stats_flag (nodeTypes (fst kv)) && truthy_num (snd kv))
          (counts_of f)))
    [switch; accessPoint; camera; microphone].
Proof.
  unfold counts_of, nodeTypes_keys. cbn.
  destruct (f switch), (f accessPoint), (f camera), (f microphone); cbn;
    repeat first [apply sublist_nil_l | apply sublist_skip | apply sublist_cons].
Qed.

Lemma surfaced_empty (f : NodeType → nat) :
  List.filter
    (fun kv => stats_flag (nodeTypes (fst kv)) && truthy_num (snd kv))
    (counts_of f) = []
  ↔ ∀ t, stats_flag (nodeTypes t) = true → f t = 0.
Proof.
  unfold counts_of, nodeTypes_keys. cbn. split.
  - intros H t Ht.
    destruct (f switch) eqn:E1, (f accessPoint) eqn:E2, (f camera) eqn:E3,
      (f microphone) eqn:E4; cbn in H; try discriminate H.
    destruct t; cbn in Ht; congruence.
  - intros H.
    rewrite (H switch), (H accessPoint), (H camera), (H microphone); done.
Qed.

(** X3.  [stats] lists the types in the declaration order of [nodeTypes]
    and never lists a type other than switch, accessPoint, camera and
    microphone; it is empty exactly when the tree has no device of these
    four types, in particular for the empty tree. *)
Theorem stats_declared_order (items : list NetworkItem) :
  sublist (List.map fst (stats items)) [switch; accessPoint; camera; microphone]
  ∧ (stats items = [] ↔
     ∀ t, stats_flag (nodeTypes t) = true → count_type t items = 0)
  ∧ stats [] = [].
Proof.
  rewrite stats_of_counts. split; [apply surfaced_order|]. split; [|done].
  apply (surfaced_empty (fun k => count_type k items)).
Qed.

(** ** EdgeRenderer: the life cycle of the listeners *)

Lemma filter_other_listener (x : string * Listener) (l : list (string * Listener)) :
  x ∉ l → List.filter (fun y => negb (bool_decide (y = x))) l = l.
Proof.
  induction l as [|y l IH]; intros Hx; [done|]. cbn.
  rewrite bool_decide_eq_false_2.
  - cbn. rewrite IH; [done|]. intros Hin. apply Hx. by right.
  - intros ->. apply Hx. left.
Qed.

Lemma detach_with_edge closure el :
  (∀ ev c s, (ev, EdgeListener c s) ∉ listeners el) →
  listeners (detach closure (with_edge closure el)) = listeners el.
Proof.
  intros H. unfold detach, with_edge, edge_listeners.
  cbn [fold_left fst snd removeEventListener listeners attributes].
  repeat (rewrite List.filter_app, (filter_other_listener _ (listeners el))
            by apply H).
  cbn [List.filter].
  repeat (rewrite ?bool_decide_eq_true_2 by done;
          rewrite ?bool_decide_eq_false_2 by done;
          cbn [negb List.filter]).
  by rewrite app_nil_r.
Qed.

Lemma hasAttribute_false k el :
  hasAttribute k el = false → attributes el !! k = None.
Proof.
  unfold hasAttribute. intros H. apply bool_decide_eq_false in H.
  by apply eq_None_not_Some.
Qed.

(** The stored cleanup puts the parent back as it was. *)
Lemma run_cleanup_with_edge dom0 closure p el :
  dom0 !! p = Some el →
  (∀ ev c s, (ev, EdgeListener c s) ∉ listeners el) →
  run_cleanup
    {| cleanup_parent := p; cleanup_closure := closure;
       cleanup_setTabIndex := negb (hasAttribute "tabindex" el) |}
    (<[p := with_edge closure el]> dom0)
  = dom0.
Proof.
  intros Hp Hel. unfold run_cleanup.
  cbn [cleanup_parent cleanup_closure cleanup_setTabIndex].
  rewrite alter_insert_eq. apply insert_id. rewrite Hp. f_equal.
  pose proof (detach_with_edge closure el Hel) as Hl.
  destruct el as [attrs ls]. cbn [listeners] in Hl.
  destruct (hasAttribute "tabindex" {| attributes := attrs; listeners := ls |})
    eqn:Hhas; cbn [negb].
  - unfold with_edge in *. rewrite Hhas in *.
    destruct (detach closure _) as [attrs' ls'] eqn:E.
    cbn in Hl. subst ls'.
    assert (attrs' = attrs) as ->; [|done].
    change attrs' with (attributes {| attributes := attrs'; listeners := ls |}).
    by rewrite <- E.
  - unfold with_edge in *. rewrite Hhas in *.
    unfold removeAttribute.
    destruct (detach closure _) as [attrs' ls'] eqn:E.
    cbn in Hl. subst ls'. cbn [attributes listeners].
    assert (attrs' = <["tabindex" := "-1"]> attrs) as ->.
    { change attrs' with (attributes {| attributes := attrs'; listeners := ls |}).
      by rewrite <- E. }
    f_equal. symmetry. apply delete_insert_id.
    by apply (hasAttribute_false "tabindex" {| attributes := attrs; listeners := ls |}).
Qed.

Lemma ref_after_cleanup closure node h dom c :
  cleanup_current h = Some c →
  ref closure node h dom
  = ref closure node
      {| hovered := hovered h; focused := focused h; cleanup_current := None |}
      (run_cleanup c dom).
Proof. intros Hc. unfold ref. by rewrite Hc. Qed.

Lemma ref_from_clean dom0 closure node h :
  no_edge_listeners dom0 → cleanup_current h = None →
  lifecycle_inv dom0 (ref closure node h dom0).
Proof.
  intros Hclean Hc.
  destruct node as [[[p|]]|]; try (left; unfold ref; rewrite Hc; by cbn).
  destruct (dom0 !! p) as [el|] eqn:Hp.
  - right. exists closure, p, el. rewrite (ref_mount closure p el) by done.
    cbn [fst snd cleanup_current]. split_and!; try done.
    unfold with_edge. rewrite attach_listeners; [done|].
    intros ev c s. by apply (Hclean p).
  - left. unfold ref. rewrite Hc. cbn. by rewrite Hp.
Qed.

Lemma dispatch_cleanup ev p dom h :
  cleanup_current (dispatch ev p dom h) = cleanup_current h.
Proof.
  unfold dispatch. destruct (dom !! p) as [el|]; [|done].
  generalize (listeners el). intros l. revert h.
  induction l as [|[ev' [c [b|b]|n]] l IH]; intros h; cbn; [done|..];
    destruct (String.eqb ev' ev); by rewrite IH.
Qed.

Lemma lifecycle_inv_step dom0 s e :
  no_edge_listeners dom0 →
  lifecycle_inv dom0 s → lifecycle_inv dom0 (edge_step s e).
Proof.
  intros Hclean Hinv. destruct s as [h dom]. destruct e as [closure node|ev q];
    unfold lifecycle_inv in Hinv; cbn [fst snd] in Hinv.
  - cbn [edge_step fst snd].
    destruct Hinv as [[Hc ->] | (c & p & el & Hp & Hc & ->)]; cbn in Hc.
    + by apply ref_from_clean.
    + rewrite (ref_after_cleanup _ _ _ _ _ Hc).
      rewrite run_cleanup_with_edge; [by apply ref_from_clean | done |].
      intros ev c' s. by apply (Hclean p).
  - cbn [edge_step fst snd].
    destruct Hinv as [[Hc ->] | (c & p & el & Hp & Hc & ->)]; cbn in Hc.
    + left. cbn. by rewrite dispatch_cleanup.
    + right. exists c, p, el. cbn. by rewrite dispatch_cleanup.
Qed.

Lemma lifecycle_inv_run dom0 steps s :
  no_edge_listeners dom0 →
  lifecycle_inv dom0 s → lifecycle_inv dom0 (edge_run steps s).
Proof.
  intros Hclean. unfold edge_run. revert s.
  induction steps as [|e steps IH]; intros s Hinv; [done|].
  cbn. apply IH. by apply lifecycle_inv_step.
Qed.

Lemma dispatch_no_edge_listeners dom ev p h :
  no_edge_listeners dom → dispatch ev p dom h = h.
Proof.
  intros Hclean. unfold dispatch. destruct (dom !! p) as [el|] eqn:Hp; [|done].
  apply dispatch_other_listeners. intros ev' c s. by apply (Hclean p).
Qed.

Lemma alter_present (f : Element → Element) (p : nat) (el : Element) (dom : DOM) :
  dom !! p = Some el → alter f p dom = <[p := f el]> dom.
Proof.
  intros Hp. apply map_eq. intros q. destruct (decide (p = q)) as [<- | Hq].
  - by rewrite lookup_alter_eq, lookup_insert_eq, Hp.
  - by rewrite lookup_alter_ne, lookup_insert_ne.
Qed.

Lemma ref_from_clean_exact dom0 closure node h cur :
  no_edge_listeners dom0 → cleanup_current h = None →
  mounted_as dom0 (mount_after dom0 cur (ref_call closure node))
    (ref closure node h dom0).
Proof.
  intros Hclean Hc.
  destruct node as [[[p|]]|];
    try (unfold ref; rewrite Hc; cbn; by split_and!).
  cbn [mount_after]. destruct (dom0 !! p) as [el|] eqn:Hp.
  - rewrite bool_decide_eq_true_2 by done.
    rewrite (ref_mount closure p el) by done.
    unfold mounted_as. cbn [fst snd cleanup_current document_with cleanup_for].
    rewrite Hp. split_and!; [|done|].
    + rewrite (alter_present _ p el) by done. unfold with_edge.
      rewrite attach_listeners; [done|].
      intros ev c s. by apply (Hclean p).
    + intros c q [= <- <-]. by rewrite Hp.
  - rewrite bool_decide_eq_false_2 by (by intros [? [=]]).
    unfold ref. rewrite Hc. cbn. rewrite Hp. by split_and!.
Qed.

Lemma mounted_as_step dom0 m s e :
  no_edge_listeners dom0 →
  mounted_as dom0 m s → mounted_as dom0 (mount_after dom0 m e) (edge_step s e).
Proof.
  intros Hclean (Hdom & Hcl & Hin). destruct s as [h dom]. cbn in Hdom, Hcl.
  destruct e as [closure node|ev q].
  - cbn [edge_step fst snd]. destruct m as [[c p]|].
    + destruct (Hin c p eq_refl) as [el Hp].
      cbn in Hdom, Hcl. rewrite Hp in Hcl. cbn in Hcl.
      rewrite (alter_present _ p el) in Hdom by done. subst dom.
      rewrite (ref_after_cleanup _ _ _ _ _ Hcl).
      rewrite run_cleanup_with_edge; [by apply ref_from_clean_exact | done |].
      intros ev c' s. by apply (Hclean p).
    + cbn in Hdom, Hcl. subst dom. by apply ref_from_clean_exact.
  - cbn [edge_step mount_after fst snd]. unfold mounted_as. cbn [fst snd].
    by rewrite dispatch_cleanup.
Qed.

Lemma mounted_as_run dom0 steps m s :
  no_edge_listeners dom0 →
  mounted_as dom0 m s →
  mounted_as dom0 (fold_left (mount_after dom0) steps m) (edge_run steps s).
Proof.
  intros Hclean. unfold edge_run. revert m s.
  induction steps as [|e steps IH]; intros m s Hm; [done|].
  cbn. apply IH. by apply mounted_as_step.
Qed.

(** X5.  Starting with nothing stored in a document without listeners of
    the edge, after any sequence of ref calls and events the state is
    decided by the latest ref call alone.  If that call was given an
    element whose parent is in the document, the document is the original
    one except that this parent carries, after its own listeners, the four
    listeners of that call (and [tabindex="-1"] if it had no [tabindex]),
    and the stored cleanup names this parent and this call.  Otherwise
    the document is the original one and nothing is stored.  Listeners of
    earlier calls never stay behind, on any element. *)
Theorem ref_lifecycle (dom0 : DOM) (steps : list EdgeStep) (h : EdgeHooks) :
  no_edge_listeners dom0 → cleanup_current h = None →
  let s := edge_run steps (h, dom0) in
  s.2 = document_with dom0 (current_mount dom0 steps)
  ∧ cleanup_current s.1 = cleanup_for dom0 (current_mount dom0 steps)
  ∧ (∀ q el, dom0 !! q = Some el →
       listeners <$> s.2 !! q
       = Some (match current_mount dom0 steps with
               | Some (closure, p) =>
                   if decide (p = q)
                   then (listeners el ++ edge_listeners closure)%list
                   else listeners el
               | None => listeners el
               end)).
Proof.
  intros Hclean Hc. cbv zeta.
  destruct (mounted_as_run dom0 steps None (h, dom0) Hclean) as (Hdom & Hcl & _).
  { by split_and!. }
  fold (current_mount dom0 steps) in Hdom, Hcl.
  split; [done|]. split; [done|].
  intros q el Hq. rewrite Hdom.
  destruct (current_mount dom0 steps) as [[c p]|]; cbn [document_with].
  - destruct (decide (p = q)) as [-> | Hpq].
    + by rewrite lookup_alter_eq, Hq.
    + by rewrite lookup_alter_ne, Hq.
  - by rewrite Hq.
Qed.

(** X6.  After any such sequence, the ref call with [null] leaves the
    document exactly as it was at the start and stores nothing, and from
    then on no event on any element changes the hooks of the edge. *)
Theorem ref_unmount_restores (dom0 : DOM) (steps : list EdgeStep)
    (closure : nat) (h : EdgeHooks) :
  no_edge_listeners dom0 → cleanup_current h = None →
  let s := edge_run (steps ++ [ref_call closure None]) (h, dom0) in
  s.2 = dom0
  ∧ cleanup_current s.1 = None
  ∧ (∀ ev p h', dispatch ev p s.2 h' = h').
Proof.
  intros Hclean Hc. cbv zeta. unfold edge_run. rewrite fold_left_app.
  pose proof (lifecycle_inv_run dom0 steps (h, dom0) Hclean (or_introl (conj Hc eq_refl)))
    as Hinv.
  unfold edge_run in Hinv.
  destruct (fold_left edge_step steps (h, dom0)) as [h1 dom1].
  cbn [fold_left edge_step fst snd].
  assert ((ref closure None h1 dom1).2 = dom0
          ∧ cleanup_current (ref closure None h1 dom1).1 = None) as [E1 E2].
  { destruct Hinv as [[Hc1 E] | (c & p & el & Hp & Hc1 & E)];
      cbn in Hc1, E; subst dom1.
    - unfold ref. by rewrite Hc1.
    - rewrite (ref_after_cleanup _ _ _ _ _ Hc1).
      rewrite run_cleanup_with_edge; [done..|].
      intros ev c' s. by apply (Hclean p). }
  split; [done|]. split; [done|].
  intros ev p h'. rewrite E1. by apply dispatch_no_edge_listeners.
Qed.

Lemma sample_dom_no_edge_listeners : no_edge_listeners sample_dom.
Proof.
  intros p el ev c s Hp Hin. unfold sample_dom in Hp.
  apply lookup_insert_Some in Hp as [[_ <-] | [_ Hp]].
  - cbn in Hin. elem_cases.
  - apply lookup_singleton_Some in Hp as [_ <-]. cbn in Hin. elem_cases.
Qed.

(** After [sample_steps] the edge is mounted under the second parent by
    the second call; the first parent has its own listener only. *)
Lemma ref_lifecycle_witness :
  no_edge_listeners sample_dom
  ∧ current_mount sample_dom sample_steps = Some (2, 8)
  ∧ listeners <$> (edge_run sample_steps (initial_hooks, sample_dom)).2 !! 7
    = Some [("click", OtherListener 0)]
  ∧ listeners <$> (edge_run sample_steps (initial_hooks, sample_dom)).2 !! 8
    = Some (edge_listeners 2).
Proof.
  split; [exact sample_dom_no_edge_listeners|]. split; [reflexivity|].
  destruct (ref_lifecycle sample_dom sample_steps initial_hooks
              sample_dom_no_edge_listeners eq_refl) as (_ & _ & Hl).
  split.
  - exact (Hl 7 plain_group eq_refl).
  - exact (Hl 8 focusable_group eq_refl).
Defined.

Lemma ref_unmount_restores_witness :
  no_edge_listeners sample_dom
  ∧ (edge_run (sample_steps ++ [ref_call 3 None]) (initial_hooks, sample_dom)).2
    = sample_dom.
Proof.
  split; [exact sample_dom_no_edge_listeners|].
  exact (proj1 (ref_unmount_restores sample_dom sample_steps 3 initial_hooks
                  sample_dom_no_edge_listeners eq_refl)).
Defined.

(** ** TreeBuilder: the nodes and their ids *)

Lemma node_nodes_map convertToSlug it :
  node_nodes (toTreeNode convertToSlug it)
  = List.map (toTreeNode convertToSlug) (item_devices it).
Proof.
  induction it as [n t m u c | n t m u c l IH] using NetworkItem_ind;
    [done|].
  change (node_nodes (toTreeNode convertToSlug (mkItem n t m u c (Some l))))
    with (toTreeNode convertToSlug (mkItem n t m u c (Some l))
          :: flat_map node_nodes (List.map (toTreeNode convertToSlug) l)).
  cbn [item_devices links List.map]. f_equal.
  induction IH as [|x r Hx _ IHr]; [done|].
  cbn [List.map flat_map]. by rewrite List.map_app, Hx, IHr.
Qed.

Lemma tree_nodes_map convertToSlug items :
  tree_nodes (toTree convertToSlug items)
  = List.map (toTreeNode convertToSlug) (devices items).
Proof.
  unfold tree_nodes, toTree, devices.
  induction items as [|it items IH]; [done|].
  cbn [List.map flat_map]. by rewrite List.map_app, node_nodes_map, IH.
Qed.

(** X7.  Every node of the built tree, at any depth, comes from one
    device of the input: the nodes in walk order are the devices in walk
    order, each with the slug of [name-type] as id, the type "network" and
    the label [name (type)]. *)
Theorem toTree_nodes (convertToSlug : string → string)
    (items : list NetworkItem) :
  List.map
    (fun n => (tree_id n, tree_type n, label (tree_data n), item (tree_data n)))
    (tree_nodes (toTree convertToSlug items))
  = List.map
      (fun it => (convertToSlug (name it ++ "-" ++ type_str (type it)),
                  "network",
                  name it ++ " (" ++ type_str (type it) ++ ")",
                  it))
      (devices items).
Proof.
  rewrite tree_nodes_map, List.map_map. apply List.map_ext.
  by intros [n t m u c [l|]].
Qed.

Lemma has_dash_app a b : has_dash (a ++ b) = has_dash a || has_dash b.
Proof.
  induction a as [|c a IH]; [done|].
  change (String c a ++ b) with (String c (a ++ b)).
  cbn [has_dash]. by rewrite IH, orb_assoc.
Qed.

Lemma type_str_no_dash t : has_dash (type_str t) = false.
Proof. by destruct t. Qed.

Lemma type_str_inj t1 t2 : type_str t1 = type_str t2 → t1 = t2.
Proof. destruct t1, t2; cbn; intros H; first [done | discriminate H]. Qed.

Lemma dash_suffix_absurd t s rest :
  type_str t = s ++ "-" ++ rest → False.
Proof.
  intros H. pose proof (type_str_no_dash t) as Hd.
  rewrite H, has_dash_app in Hd. cbn in Hd.
  by rewrite orb_true_r in Hd.
Qed.

(** Name and type can be read back from the string given to the slug
    function: no type has a hyphen. *)
Lemma slug_input_inj n1 t1 n2 t2 :
  n1 ++ "-" ++ type_str t1 = n2 ++ "-" ++ type_str t2 → n1 = n2 ∧ t1 = t2.
Proof.
  revert n2. induction n1 as [|c n1 IH]; intros [|c2 n2] H; cbn in H.
  - injection H as H. by apply type_str_inj in H.
  - injection H as _ H. by apply dash_suffix_absurd in H.
  - injection H as _ H. symmetry in H. by apply dash_suffix_absurd in H.
  - injection H as -> H. apply IH in H as [-> ->]. done.
Qed.

Lemma tree_ids_of_pairs convertToSlug items :
  List.map tree_id (tree_nodes (toTree convertToSlug items))
  = (fun nt : string * NodeType => convertToSlug (nt.1 ++ "-" ++ type_str nt.2))
    <$> ((fun it => (name it, type it)) <$> devices items).
Proof.
  rewrite tree_nodes_map, List.map_map.
  change (List.map (fun it => tree_id (toTreeNode convertToSlug it)) (devices items)
          = List.map
              (fun nt : string * NodeType =>
                 convertToSlug (nt.1 ++ "-" ++ type_str nt.2))
              (List.map (fun it => (name it, type it)) (devices items))).
  rewrite List.map_map. apply List.map_ext. by intros [n t m u c [l|]].
Qed.

(** X8.  Whatever the slug function, two devices that share name and type
    get the same id, so a tree whose nodes have pairwise different ids has
    no two devices with the same name and type.  Conversely, if the slug
    function gives different slugs to the [name-type] strings of any two
    devices of the tree whose strings differ, and no two devices share
    both name and type, then no two nodes of the built tree share an id:
    the [name-type] string determines name and type, since no type has a
    hyphen. *)
Theorem toTree_ids_unique (convertToSlug : string → string)
    (items : list NetworkItem) :
  (NoDup (List.map tree_id (tree_nodes (toTree convertToSlug items))) →
   NoDup (List.map (fun it => (name it, type it)) (devices items)))
  ∧ ((∀ a b, a ∈ devices items → b ∈ devices items →
        convertToSlug (name a ++ "-" ++ type_str (type a))
        = convertToSlug (name b ++ "-" ++ type_str (type b)) →
        name a ++ "-" ++ type_str (type a) = name b ++ "-" ++ type_str (type b)) →
     NoDup (List.map (fun it => (name it, type it)) (devices items)) →
     NoDup (List.map tree_id (tree_nodes (toTree convertToSlug items)))).
Proof.
  rewrite tree_ids_of_pairs. split.
  - apply NoDup_fmap_1.
  - intros Hslug Hnd. apply NoDup_fmap_2_strong; [|done].
    intros x y Hx Hy Hxy.
    apply list_elem_of_fmap in Hx as (a & -> & Ha).
    apply list_elem_of_fmap in Hy as (b & -> & Hb).
    cbn [fst snd] in Hxy. apply (Hslug a b Ha Hb) in Hxy.
    by apply slug_input_inj in Hxy as [-> ->].
Qed.

(** With [hyphenate], which maps ["a b"] and ["a-b"] to the same slug, the
    three devices of [spaced_network] still get three different ids. *)
Lemma toTree_ids_unique_witness :
  hyphenate "a b" = hyphenate "a-b"
  ∧ NoDup (List.map (fun it => (name it, type it)) (devices spaced_network))
  ∧ List.map tree_id (tree_nodes (toTree hyphenate spaced_network))
    = ["core-switch-switch"; "north-pasture-camera"; "barn-camera"]
  ∧ NoDup (List.map tree_id (tree_nodes (toTree hyphenate spaced_network))).
Proof.
  split; [reflexivity|].
  assert (NoDup (List.map (fun it => (name it, type it))
                   (devices spaced_network))) as Hnd by compute_done.
  split; [exact Hnd|]. split; [reflexivity|].
  apply (proj2 (toTree_ids_unique hyphenate spaced_network)); [|exact Hnd].
  intros a b Ha Hb. cbn in Ha, Hb. elem_cases; cbn; intros H;
    first [reflexivity | discriminate H].
Defined.

(** ** Accessible list *)

Lemma li_items_map convertToSlug it :
  li_items (NetworkList_item convertToSlug it)
  = List.map (NetworkList_item convertToSlug) (item_devices it).
Proof.
  induction it as [n t m u c | n t m u c l IH] using NetworkItem_ind;
    [done|].
  change (li_items (NetworkList_item convertToSlug (mkItem n t m u c (Some l))))
    with (NetworkList_item convertToSlug (mkItem n t m u c (Some l))
          :: flat_map li_items (List.map (NetworkList_item convertToSlug) l)).
  cbn [item_devices links List.map]. f_equal.
  induction IH as [|x r Hx _ IHr]; [done|].
  cbn [List.map flat_map]. by rewrite List.map_app, Hx, IHr.
Qed.

Lemma list_items_map convertToSlug items :
  list_items (NetworkList convertToSlug items)
  = List.map (NetworkList_item convertToSlug) (devices items).
Proof.
  unfold list_items, NetworkList, devices.
  induction items as [|it items IH]; [done|].
  cbn [List.map flat_map]. by rewrite List.map_app, li_items_map, IH.
Qed.

(** X9.  The accessible list mirrors the diagram: walking the list and
    walking the built tree visit the same devices in the same order, the
    key of each list item is the id of the corresponding node, and each
    list item shows the name, the model and the type name of its
    device. *)
Theorem NetworkList_mirrors_tree (convertToSlug : string → string)
    (items : list NetworkItem) :
  List.map li_key (list_items (NetworkList convertToSlug items))
  = List.map tree_id (tree_nodes (toTree convertToSlug items))
  ∧ List.map (fun li => (li_name li, li_model li, li_eyebrow li))
      (list_items (NetworkList convertToSlug items))
    = List.map
        (fun n => (name (item (tree_data n)), model (item (tree_data n)),
                   eyebrow_name (eyebrow (nodeTypes (type (item (tree_data n)))))))
        (tree_nodes (toTree convertToSlug items))
  ∧ length (list_items (NetworkList convertToSlug items))
    = length (devices items).
Proof.
  rewrite list_items_map, tree_nodes_map, !List.map_map, List.length_map.
  split_and!; [| |done]; apply List.map_ext; by intros [n t m u c [l|]].
Qed.

(** X10.  The list and the diagram link the same devices: the model of a
    list item is a link exactly when the node of the same device is a
    hyperlink, and then to the same address. *)
Theorem NetworkList_link_as_node (convertToSlug : string → string)
    (it : NetworkItem) (edges : list Edge) (id lbl : string)
    (targetPosition sourcePosition : option Position) (isConnectable : bool) :
  let li := NetworkList_item convertToSlug it in
  let view :=
    NetworkNode edges id {| label := lbl; item := it |}
      targetPosition sourcePosition isConnectable in
  (is_Some (li_href li) ↔ element view = a_tag)
  ∧ (∀ u, li_href li = Some u ↔ ("href", u) ∈ linkProps view).
Proof.
  cbv zeta. unfold NetworkNode.
  destruct (scan_edges id edges None None) as [te se].
  destruct it as [n t m u c l]. cbn [element linkProps item url].
  assert (li_href (NetworkList_item convertToSlug (mkItem n t m u c l))
          = if truthy_str u then u else None) as -> by by destruct l.
  destruct (truthy_str u) eqn:Hu.
  - apply truthy_str_spec in Hu as (u0 & -> & Hne). split; [done|].
    intros u'. cbn. split.
    + intros [= ->]. left.
    + intros Hin. elem_cases. by injection Hin as ->.
  - split.
    + split; [by intros [? [=]] | done].
    + intros u'. split; [done|]. intros Hin. elem_cases.
Qed.

(** X11.  The connection line of a list item names the connection as the
    label of the edge towards the same device does: whenever an edge
    renders, the list item of its target device shows the name of the
    target's connection type, which is the text of the edge's label when
    the label is shown. *)
Theorem NetworkList_connection_as_edge (convertToSlug : string → string)
    (nodes : list GraphNode) (source target : string)
    (hovered focused : bool) (view : EdgeView) (targetNode : GraphNode) :
  List.find (fun n => String.eqb (node_id n) target) nodes = Some targetNode →
  NetworkEdge nodes source target hovered focused = Returned view →
  ∃ c,
    connection (item (node_data targetNode)) = Some c
    ∧ li_connection (NetworkList_item convertToSlug (item (node_data targetNode)))
      = Some (edge_name (edgeTypes (connection_type c)))
    ∧ (∀ l, edge_label view = Some l →
         li_connection
           (NetworkList_item convertToSlug (item (node_data targetNode)))
         = Some (label_text l)).
Proof.
  intros Ht. rewrite NetworkEdge_cases, Ht.
  destruct (List.find (fun n => String.eqb (node_id n) source) nodes) as [s|];
    [|done].
  destruct (item (node_data targetNode)) as [n t m u [c|] l] eqn:Hit;
    cbn [connection]; [|done].
  intros [= <-]. exists c. split; [done|].
  assert (li_connection (NetworkList_item convertToSlug (mkItem n t m u (Some c) l))
          = Some (edge_name (edgeTypes (connection_type c)))) as ->
    by by destruct l.
  split; [done|]. cbn. intros lv. destruct (hovered || focused); [|done].
  by intros [= <-].
Qed.

Lemma NetworkList_connection_as_edge_witness :
  NetworkEdge [root_switch; fiber_camera] "core-switch" "barn-camera" true false
  = Returned
      {| group_class := ["stroke-blue-700"];
         style_stroke := "inherit";
         style_strokeWidth := 2;
         style_strokeDasharray := Some "8 8";
         edge_label := Some {| label_text := "Fiber"; label_zIndex := 1 |} |}
  ∧ li_connection (NetworkList_item (fun s => s) (item (node_data fiber_camera)))
    = Some "Fiber".
Proof.
  split; [reflexivity|].
  destruct (NetworkList_connection_as_edge (fun s => s)
              [root_switch; fiber_camera] "core-switch" "barn-camera"
              true false _ fiber_camera eq_refl eq_refl)
    as (c & Hc & Hli & _).
  injection Hc as <-. exact Hli.
Defined.

(** ** Statistics strip *)

Lemma stats_entry items t c :
  (t, c) ∈ stats items →
  stats_flag (nodeTypes t) = true
  ∧ c = Num (count_type t items) ∧ count_type t items ≠ 0.
Proof.
  rewrite stats_of_counts, list_elem_of_In, filter_In, <- list_elem_of_In.
  rewrite elem_of_counts_of. cbn. rewrite andb_true_iff.
  intros (-> & Hflag & Hc). split_and!; [done..|].
  intros E. rewrite E in Hc. done.
Qed.

(** X12.  The summary has one item per entry of [stats], in the same
    order and with pairwise different keys; every item shows a type that
    has the stats flag together with its count in the whole tree, which
    is never zero; and the separator follows every item except the last
    one. *)
Theorem NetworkStats_items (toLocaleString : number → string)
    (pluralize : string → number → string) (network : list NetworkItem) :
  let items := NetworkStats toLocaleString pluralize network in
  List.map stat_key items = List.map fst (stats network)
  ∧ NoDup (List.map stat_key items)
  ∧ (∀ i v, items !! i = Some v →
       (stat_comma v = true ↔ i + 1 < length items)
       ∧ stats_flag (nodeTypes (stat_key v)) = true
       ∧ count_type (stat_key v) network ≠ 0
       ∧ stat_value v = toLocaleString (Num (count_type (stat_key v) network))
       ∧ stat_name v
         = pluralize (eyebrow_name (eyebrow (nodeTypes (stat_key v))))
             (Num (count_type (stat_key v) network))).
Proof.
  cbv zeta.
  assert (List.map stat_key (NetworkStats toLocaleString pluralize network)
          = List.map fst (stats network)) as Hkeys.
  { unfold NetworkStats.
    change (stat_key <$> imap
              (fun idx kv =>
                 {| stat_key := fst kv;
                    stat_value := toLocaleString (snd kv);
                    stat_name :=
                      pluralize (eyebrow_name (eyebrow (nodeTypes (fst kv)))) (snd kv);
                    stat_comma :=
                      (Z.of_nat idx <? Z.of_nat (length (stats network)) - 1)%Z |})
              (stats network)
            = fst <$> stats network).
    rewrite fmap_imap. by rewrite <- imap_const. }
  split; [done|]. split; [rewrite Hkeys; apply stats_keys_NoDup|].
  intros i v Hv. unfold NetworkStats in *.
  rewrite length_imap.
  apply list_lookup_imap_Some in Hv as ([k c] & Hkc & ->).
  cbn [stat_key stat_value stat_name stat_comma fst snd].
  pose proof (lookup_lt_Some _ _ _ Hkc) as Hlt.
  apply list_elem_of_lookup_2, stats_entry in Hkc as (Hflag & -> & Hne).
  split; [|done]. rewrite Z.ltb_lt. lia.
Qed.

(** ** Date and time field *)

Lemma field_step_hidden props st e :
  truthy_flag (props_showResetButton props) = false →
  reset_button_shown st = false →
  reset_button_shown (field_step props st e) = false.
Proof.
  intros Hp Hst. destruct e as [v|]; cbn [field_step].
  - unfold onChange. rewrite Hp. by destruct (props_has_onChange props).
  - unfold reset. by destruct (input_mounted st).
Qed.

(** X13.  When the [showResetButton] prop is absent or false, the reset
    button is not shown at first and no sequence of edits and resets ever
    makes it appear, whatever values the [value] and [defaultValue] props
    give the field. *)
Theorem reset_button_never_shown (props : FieldProps) (mounted : bool)
    (es : list FieldEvent) :
  truthy_flag (props_showResetButton props) = false →
  reset_button_shown (field_run props es (initial_field props mounted)) = false.
Proof.
  intros Hp.
  assert (reset_button_shown (initial_field props mounted) = false) as Hinit.
  { unfold reset_button_shown, initial_field. cbn. by rewrite Hp. }
  revert Hinit. generalize (initial_field props mounted). unfold field_run.
  induction es as [|e es IH]; intros st Hst; [done|].
  cbn. apply IH. by apply field_step_hidden.
Qed.

Lemma reset_button_never_shown_witness :
  reset_button_shown
    (field_run
       {| props_showResetButton := None; props_has_value := true;
          props_has_onChange := true |}
       [change "2024-05-01T10:00"; click_reset; change "2024-05-02T10:00"]
       (initial_field
          {| props_showResetButton := None; props_has_value := true;
             props_has_onChange := true |}
          true))
  = false.
Proof.
  exact (reset_button_never_shown
           {| props_showResetButton := None; props_has_value := true;
              props_has_onChange := true |}
           true
           [change "2024-05-01T10:00"; click_reset; change "2024-05-02T10:00"]
           eq_refl).
Defined.

Lemma field_step_calls props st e :
  onChange_calls (field_step props st e)
  = (onChange_calls st
     ++ if props_has_onChange props then edits [e] else [])%list.
Proof.
  destruct e as [v|]; cbn [field_step edits flat_map].
  - unfold onChange.
    destruct (truthy_flag (props_showResetButton props)),
      (props_has_onChange props); cbn; by rewrite ?app_nil_r.
  - unfold reset. destruct (input_mounted st), (props_has_onChange props);
      cbn; by rewrite app_nil_r.
Qed.

(** X15.  The handler given as [onChange] is called once for every edit,
    in order and with the edited value, and never for a click on the
    reset button; without a handler nothing is called. *)
Theorem onChange_calls_are_edits (props : FieldProps) (st : FieldState)
    (es : list FieldEvent) :
  onChange_calls (field_run props es st)
  = (onChange_calls st
     ++ if props_has_onChange props then edits es else [])%list.
Proof.
  unfold field_run. revert st.
  induction es as [|e es IH]; intros st; cbn [fold_left].
  - destruct (props_has_onChange props); cbn; by rewrite app_nil_r.
  - rewrite IH, field_step_calls.
    destruct (props_has_onChange props); [|by rewrite !app_nil_r].
    rewrite <- app_assoc. f_equal. unfold edits. cbn [flat_map].
    by rewrite app_nil_r.
Qed.
